(** * PubMed paper fetcher: a shallow embedding of [pubmed_fetch.py]

    The development follows the Python module function by function:
    the keyword classifier and the per-article extractor
    ([extract_authors_and_affiliations]), the two-stage HTTP pipeline
    ([fetch_papers_from_pubmed]), the CSV and console sinks
    ([save_to_csv], [print_results]) and the entry point ([main]).

    Conventions.
    - A Python [str] is a [string]: the UTF-8 bytes of the text.  Every
      operation the module performs on text (substring test, joining,
      the ASCII character classes of the e-mail pattern, the CSV special
      characters) commutes with that encoding.
    - A Python value that may be [None] is an [option].
    - An exception is the [Raise] result of [pyresult]; code that also
      talks to the network, the console or the file system runs in the
      monad [IO] over an explicit [World].
    - Opening a file may fail, and two names may be one file: [open] is a
      call to the outside like the others.  Once a file is open, writing
      to it is taken to succeed. *)

From Stdlib Require Import Ascii ZArith.
From stdpp Require Import base option list strings gmap.

Local Open Scope Z_scope.

(** ** Exceptions and results *)

Inductive exn : Type :=
| ConnectionError   (* requests: transport failure *)
| HTTPError         (* requests: raise_for_status *)
| JSONDecodeError   (* response.json() on a body that is not JSON *)
| ParseError        (* ET.fromstring on malformed XML *)
| AttributeError    (* attribute access on None, .get on a non-dict *)
| TypeError         (* [kw in None], joining non-strings *)
| ValueError        (* csv.DictWriter: a key outside the field names *)
| OSError.          (* open: FileNotFoundError, IsADirectoryError, PermissionError *)

Inductive pyresult (A : Type) : Type :=
| Ok (a : A)
| Raise (e : exn).
Arguments Ok {A} a.
Arguments Raise {A} e.

Definition is_raise {A} (r : pyresult A) : bool :=
  match r with Ok _ => false | Raise _ => true end.

Definition rbind {A B} (r : pyresult A) (k : A -> pyresult B) : pyresult B :=
  match r with Ok a => k a | Raise e => Raise e end.

#[global] Instance pyresult_ret : MRet pyresult := @Ok.
#[global] Instance pyresult_bind : MBind pyresult := fun A B k r => rbind r k.

(** A [for] loop whose body may raise: the first exception ends it. *)
Fixpoint for_each {A S} (body : S -> A -> pyresult S) (xs : list A) (s : S)
  : pyresult S :=
  match xs with
  | [] => Ok s
  | x :: xs' => s' ← body s x; for_each body xs' s'
  end.

(** ** Text *)

(** [str(x)] inside an f-string, for a value that may be [None]. *)
Definition py_str (v : option string) : string :=
  match v with Some s => s | None => "None" end.

(** [s.startswith(p)] *)
Fixpoint starts_with (p s : string) : bool :=
  match p, s with
  | EmptyString, _ => true
  | String a p', String b s' => if decide (a = b) then starts_with p' s' else false
  | String _ _, EmptyString => false
  end.

(** [kw in s] on two strings: a match of [kw] at some offset of [s]. *)
Fixpoint str_contains (kw s : string) : bool :=
  starts_with kw s ||
  match s with
  | EmptyString => false
  | String _ s' => str_contains kw s'
  end.

(** [sep.join(xs)] on a list of strings. *)
Definition join (sep : string) (xs : list string) : string := String.concat sep xs.

(** ** XML element trees ([xml.etree.ElementTree.Element]) *)

#[warnings="-register-all"]
Inductive Element : Type :=
  mkElement {
    tag : string;
    attrib : list (string * string);
    text : option string;
    tail : option string;
    children : list Element
  }.

(** [elem.iter()]: the element and its descendants in document order. *)
Fixpoint iter (e : Element) : list Element :=
  match e with
  | mkElement _ _ _ _ cs => e :: flat_map iter cs
  end.

Definition has_tag (t : string) (e : Element) : bool := bool_decide (tag e = t).

(** [elem.findall(".//t")]: every proper descendant with tag [t], in
    document order. *)
Definition findall_desc (t : string) (e : Element) : list Element :=
  List.filter (has_tag t) (flat_map iter (children e)).

(** [elem.find(".//t")] *)
Definition find_desc (t : string) (e : Element) : option Element :=
  head (findall_desc t e).

(** [elem.find("t")]: the first child with tag [t]. *)
Definition find_child (t : string) (e : Element) : option Element :=
  head (List.filter (has_tag t) (children e)).

(** ** Regular expressions ([re])

    The fragment of [re] the module uses: a sequence of single
    characters and of greedy repetitions [[class]{min,}] of a character
    class.  [re] matches by backtracking: a greedy repetition first takes
    as many characters as it can and gives them back one at a time while
    the rest of the pattern fails. *)

Inductive re_item : Type :=
| Lit (c : ascii)                          (* one literal character *)
| Rep (cls : ascii -> bool) (min : nat).   (* [cls]{min,}, greedy *)

Definition regex := list re_item.

(** The greedy repetition in continuation style: [k] matches the rest of
    the pattern.  One more character is tried before stopping here. *)
Fixpoint greedy (cls : ascii -> bool) (k : string -> option string)
    (min : nat) (s : string) : option string :=
  let stop := match min with O => k s | S _ => None end in
  match s with
  | String c s' =>
      if cls c then
        match greedy cls k (pred min) s' with
        | Some m => Some (String c m)
        | None => stop
        end
      else stop
  | EmptyString => stop
  end.

(** [re.match(p, s)]: the text matched at the start of [s], if any. *)
Fixpoint re_match (p : regex) (s : string) : option string :=
  match p with
  | [] => Some EmptyString
  | Lit c :: p' =>
      match s with
      | String c' s' => if decide (c = c') then String c <$> re_match p' s' else None
      | EmptyString => None
      end
  | Rep cls min :: p' => greedy cls (re_match p') min s
  end.

(** [re.search(p, s)]: the match at the first offset that has one. *)
Fixpoint re_search (p : regex) (s : string) : option string :=
  match re_match p s with
  | Some m => Some m
  | None =>
      match s with
      | String _ s' => re_search p s'
      | EmptyString => None
      end
  end.

Definition in_range (lo hi c : ascii) : bool :=
  (N_of_ascii lo <=? N_of_ascii c)%N && (N_of_ascii c <=? N_of_ascii hi)%N.

Definition one_of (cs : string) (c : ascii) : bool :=
  bool_decide (c ∈ String.list_ascii_of_string cs).

(** [[a-zA-Z]] *)
Definition cls_alpha (c : ascii) : bool :=
  in_range "a" "z" c || in_range "A" "Z" c.

(** [[a-zA-Z0-9.-]] *)
Definition cls_domain (c : ascii) : bool :=
  cls_alpha c || in_range "0" "9" c || one_of ".-" c.

(** [[a-zA-Z0-9._%+-]] *)
Definition cls_local (c : ascii) : bool :=
  cls_alpha c || in_range "0" "9" c || one_of "._%+-" c.

(** [r"([a-zA-Z0-9._%+-]+@[a-zA-Z0-9.-]+\.[a-zA-Z]{2,})"]; the single group
    spans the whole pattern, so [group(1)] is the whole match. *)
Definition EMAIL_RE : regex :=
  [Rep cls_local 1; Lit "@"; Rep cls_domain 1; Lit "."; Rep cls_alpha 2].

(** ** The libraries the module calls

    [requests.get], [ET.fromstring], [ET.tostring] and the built-in [open]
    are taken as they come: what the server answers (which may depend on
    the requests it has already seen), how XML text parses, how a tree is
    written back, and whether a name can be opened for writing and which
    file it then is, are outside the module. *)

Inductive param : Type :=
| PStr (s : string)
| PInt (n : Z).

Record Request : Type := mkRequest {
  url : string;
  params : list (string * param)
}.

(** Decoded JSON, as [response.json()] returns it.  Numbers are kept as
    integers: the module only ever tests a value for being falsy. *)
#[warnings="-register-all"]
Inductive json : Type :=
| JNull
| JBool (b : bool)
| JNum (n : Z)
| JStr (s : string)
| JArr (xs : list json)
| JObj (kvs : list (string * json)).   (* a dict, in insertion order *)

Record Response : Type := mkResponse {
  status_code : Z;
  body_json : option json;    (* [None]: the body is not JSON *)
  body_text : string          (* [response.text] *)
}.

Class Library : Type := {
  requests_get : list Request -> Request -> pyresult Response;
  ET_fromstring : string -> pyresult Element;
  ET_tostring : Element -> string;
  (* [open(name, mode="w")]: the file the name resolves to, or the error
     the call raises (no such directory, a directory, no permission, the
     empty name) *)
  builtin_open : string -> pyresult string
}.

(** ** Classifier and record extractor *)

Definition COMPANY_KEYWORDS : list string :=
  ["Inc."; "Ltd."; "Pharma"; "Biotech"; "Corp."; "Therapeutics"; "Laboratories"].
Definition ACADEMIC_KEYWORDS : list string :=
  ["University"; "Institute"; "College"; "Hospital"; "School"; "Academy"].

(** [any(keyword in affiliation for keyword in COMPANY_KEYWORDS)] on a string *)
Definition is_company (affiliation : string) : bool :=
  existsb (fun keyword => str_contains keyword affiliation) COMPANY_KEYWORDS.

(** The display name composed on line 70. *)
Definition author_name (author : Element) : string :=
  match find_child "LastName" author, find_child "ForeName" author with
  | Some last_name, Some fore_name =>
      py_str (text fore_name) +:+ " " +:+ py_str (text last_name)
  | _, _ => "Unknown"
  end.

(** One turn of the loop over the authors; the accumulator is
    [(authors, company_affiliations)].  [keyword in None] raises. *)
Definition visit_author (acc : list string * list string) (author : Element)
  : pyresult (list string * list string) :=
  let name := author_name author in
  match find_desc "Affiliation" author with
  | Some affiliation_elem =>
      match text affiliation_elem with
      | Some affiliation =>
          if is_company affiliation
          then Ok (acc.1 ++ [name], acc.2 ++ [affiliation])
          else Ok acc
      | None => Raise TypeError
      end
  | None => Ok acc
  end.

Definition extract_authors_and_affiliations `{Library} (article : Element)
  : pyresult (list string * list string * option string) :=
  '(authors, company_affiliations) ←
    for_each visit_author (findall_desc "Author" article) ([], []);
  let corresponding_email := re_search EMAIL_RE (ET_tostring article) in
  Ok (authors, company_affiliations, corresponding_email).

(** ** The world: requests sent, console output, files *)

Record World : Type := mkWorld {
  sent : list Request;            (* every HTTP request issued, oldest first *)
  stdout : list string;           (* one entry per [print] call *)
  files : gmap string string      (* file (as names resolve to it) to content *)
}.

Definition IO (A : Type) : Type := World -> World * pyresult A.

Definition io_ret {A} (a : A) : IO A := fun w => (w, Ok a).

Definition io_bind {A B} (m : IO A) (k : A -> IO B) : IO B :=
  fun w =>
    match m w with
    | (w', Ok a) => k a w'
    | (w', Raise e) => (w', Raise e)
    end.

(** A pure computation that may raise, run inside [IO]. *)
Definition lift {A} (r : pyresult A) : IO A := fun w => (w, r).

#[global] Instance IO_ret : MRet IO := @io_ret.
#[global] Instance IO_bind : MBind IO := fun A B k m => io_bind m k.

Fixpoint io_for_each {A} (body : A -> IO unit) (xs : list A) : IO unit :=
  match xs with
  | [] => io_ret tt
  | x :: xs' => body x;; io_for_each body xs'
  end.

Definition print (line : string) : IO unit :=
  fun w => (mkWorld (sent w) (stdout w ++ [line]) (files w), Ok tt).

(** [requests.get(url, params=params)], the two arguments as one [Request] *)
Definition http_get `{Library} (rq : Request) : IO Response :=
  fun w => (mkWorld (sent w ++ [rq]) (stdout w) (files w), requests_get (sent w) rq).

(** [open(filename, mode="w")]: when the name can be opened, the file it
    resolves to is created or truncated and handed back; otherwise the
    call raises and nothing changes. *)
Definition open_w `{Library} (filename : string) : IO string :=
  fun w =>
    match builtin_open filename with
    | Ok file =>
        (mkWorld (sent w) (stdout w) (<[file := EmptyString]> (files w)), Ok file)
    | Raise e => (w, Raise e)
    end.

(** [file.write(s)] on a file handed back by [open_w]. *)
Definition file_write (file s : string) : IO unit :=
  fun w =>
    (mkWorld (sent w) (stdout w)
       (<[file := default EmptyString (files w !! file) +:+ s]> (files w)),
     Ok tt).

(** ** JSON values as Python objects *)

(** [bool(v)] *)
Definition truthy (v : json) : bool :=
  match v with
  | JNull => false
  | JBool b => b
  | JNum n => negb (n =? 0)
  | JStr s => negb (bool_decide (s = EmptyString))
  | JArr xs => negb (bool_decide (xs = []))
  | JObj kvs => negb (bool_decide (kvs = []))
  end.

Fixpoint assoc {V} (k : string) (kvs : list (string * V)) : option V :=
  match kvs with
  | [] => None
  | (k', v) :: rest => if decide (k' = k) then Some v else assoc k rest
  end.

(** [d.get(k, dflt)]; only a dict has the method. *)
Definition dict_get (d : json) (k : string) (dflt : json) : pyresult json :=
  match d with
  | JObj kvs => Ok (default dflt (assoc k kvs))
  | _ => Raise AttributeError
  end.

(** The characters of a string: a new one starts at every byte that is
    not a UTF-8 continuation byte. *)
Definition is_continuation (c : ascii) : bool :=
  in_range "128" "191" c.

Fixpoint py_chars (s : string) : list string :=
  match s with
  | EmptyString => []
  | String c s' =>
      match py_chars s' with
      | ch :: rest =>
          match ch with
          | String c' _ =>
              if is_continuation c' then String c ch :: rest
              else String c EmptyString :: ch :: rest
          | EmptyString => String c EmptyString :: rest
          end
      | [] => [String c EmptyString]
      end
  end.

Definition expect_str (v : json) : pyresult string :=
  match v with JStr s => Ok s | _ => Raise TypeError end.

(** The items [sep.join(v)] iterates over: they must all be strings. *)
Definition str_items (v : json) : pyresult (list string) :=
  match v with
  | JArr xs => for_each (fun acc x => s ← expect_str x; Ok (acc ++ [s])) xs []
  | JStr s => Ok (py_chars s)
  | JObj kvs => Ok (kvs.*1)
  | _ => Raise TypeError
  end.

(** [response.raise_for_status()]: 4xx and 5xx raise. *)
Definition raise_for_status (r : Response) : pyresult unit :=
  if (400 <=? status_code r) && (status_code r <? 600) then Raise HTTPError else Ok tt.

(** [response.json()] *)
Definition response_json (r : Response) : pyresult json :=
  match body_json r with Some v => Ok v | None => Raise JSONDecodeError end.

(** ** The fetch pipeline *)

Definition PUBMED_API_BASE : string := "https://eutils.ncbi.nlm.nih.gov/entrez/eutils/".

(** A paper: the dict built on lines 49 to 55, keys in insertion order. *)
Definition Paper : Type := list (string * option string).

(** [", ".join(xs) if xs else "N/A"] *)
Definition join_or_na (xs : list string) : string :=
  match xs with [] => "N/A" | _ => join ", " xs end.

(** [email or "N/A"]: [None] and the empty string are falsy. *)
Definition or_na (email : option string) : string :=
  match email with
  | Some (String c s) => String c s
  | Some EmptyString | None => "N/A"
  end.

Definition make_paper (paper_id title : option string)
    (authors company_affiliations : list string)
    (corresponding_email : option string) : Paper :=
  [ ("PubmedID", paper_id);
    ("Title", title);
    ("Non-academic Authors", Some (join_or_na authors));
    ("Company Affiliations", Some (join_or_na company_affiliations));
    ("Corresponding Author Email", Some (or_na corresponding_email)) ].

(** One turn of the loop over the articles (lines 42 to 55). *)
Definition visit_article `{Library} (papers : list Paper) (article : Element)
  : pyresult (list Paper) :=
  paper_id ← match find_desc "PMID" article with
             | Some pmid => Ok (text pmid)
             | None => Raise AttributeError
             end;
  let title := match find_desc "ArticleTitle" article with
               | Some title_elem => text title_elem
               | None => Some "N/A"
               end in
  '(authors, company_affiliations, corresponding_email) ←
    extract_authors_and_affiliations article;
  Ok (papers ++
      [make_paper paper_id title authors company_affiliations corresponding_email]).

Definition search_request (query : string) (max_results : Z) : Request :=
  mkRequest (PUBMED_API_BASE +:+ "esearch.fcgi")
    [("db", PStr "pubmed"); ("term", PStr query);
     ("retmax", PInt max_results); ("retmode", PStr "json")].

Definition fetch_request (ids : list string) : Request :=
  mkRequest (PUBMED_API_BASE +:+ "efetch.fcgi")
    [("db", PStr "pubmed"); ("id", PStr (join "," ids)); ("retmode", PStr "xml")].

Definition fetch_papers_from_pubmed `{Library} (query : string) (max_results : Z)
  : IO (list Paper) :=
  (* Step 1: ESearch *)
  response ← http_get (search_request query max_results);
  lift (raise_for_status response);;
  search_data ← lift (response_json response);
  esearchresult ← lift (dict_get search_data "esearchresult" (JObj []));
  paper_ids ← lift (dict_get esearchresult "idlist" (JArr []));
  if negb (truthy paper_ids) then
    print "No papers found for the query.";;
    mret []
  else
    (* Step 2: EFetch *)
    ids ← lift (str_items paper_ids);
    response ← http_get (fetch_request ids);
    lift (raise_for_status response);;
    let xml_data := body_text response in
    (* Step 3: extract *)
    root ← lift (ET_fromstring xml_data);
    lift (for_each visit_article (findall_desc "PubmedArticle" root) []).

(** ** Output *)

Definition dquote : ascii := "034".
Definition CR : ascii := "013".
Definition LF : ascii := "010".

Definition FIELDNAMES : list string :=
  ["PubmedID"; "Title"; "Non-academic Authors"; "Company Affiliations";
   "Corresponding Author Email"].

(** The [csv] writer with the default dialect: a field holding the
    delimiter, the quote character or a line-terminator character is
    wrapped in quotes, with each inner quote doubled. *)
Definition csv_special (c : ascii) : bool :=
  bool_decide (c = ","%char) || bool_decide (c = dquote)
  || bool_decide (c = CR) || bool_decide (c = LF).

Fixpoint str_exists (f : ascii -> bool) (s : string) : bool :=
  match s with
  | EmptyString => false
  | String c s' => f c || str_exists f s'
  end.

Fixpoint csv_escape (s : string) : string :=
  match s with
  | EmptyString => EmptyString
  | String c s' =>
      if decide (c = dquote) then String dquote (String dquote (csv_escape s'))
      else String c (csv_escape s')
  end.

Definition csv_field (s : string) : string :=
  if str_exists csv_special s
  then String dquote (csv_escape s +:+ String dquote EmptyString)
  else s.

(** The line terminator of the dialect. *)
Definition CRLF : string := String CR (String LF EmptyString).

(** [writer.writerow(fields)]; a row made of one empty field is written
    as a pair of quotes. *)
Definition csv_row (fields : list string) : string :=
  match fields with
  | [EmptyString] => String dquote (String dquote EmptyString)
  | _ => join "," (csv_field <$> fields)
  end +:+ CRLF.

(** What the writer makes of a cell: [None] is written as nothing. *)
Definition csv_cell (v : option string) : string := default EmptyString v.

(** [DictWriter._dict_to_list]: a key outside the field names is refused;
    a missing one gives the empty rest value. *)
Definition dict_to_list (fieldnames : list string) (rowdict : Paper)
  : pyresult (list string) :=
  if forallb (fun kv => bool_decide (kv.1 ∈ fieldnames)) rowdict
  then Ok ((fun key => csv_cell (default None (assoc key rowdict))) <$> fieldnames)
  else Raise ValueError.

(** The cells [dict_to_list] gives for a paper that has only known keys. *)
Definition row_of (paper : Paper) : list string :=
  (fun key => csv_cell (default None (assoc key paper))) <$> FIELDNAMES.

Definition writerow (file : string) (rowdict : Paper) : IO unit :=
  row ← lift (dict_to_list FIELDNAMES rowdict);
  file_write file (csv_row row).

Definition save_to_csv `{Library} (data : list Paper) (filename : string) : IO unit :=
  file ← open_w filename;
  file_write file (csv_row FIELDNAMES);;
  io_for_each (writerow file) data;;
  print ("Results saved to " +:+ filename).

Definition SEPARATOR : string := String LF "---------------------------------".

Definition print_paper (paper : Paper) : IO unit :=
  print SEPARATOR;;
  io_for_each (fun kv : string * option string => print (kv.1 +:+ ": " +:+ py_str kv.2)) paper.

Definition print_results (data : list Paper) : IO unit :=
  io_for_each print_paper data;;
  print SEPARATOR.

(** [main], with the parsed command line as arguments: the query and the
    value of [--file] ([None] when the option is not given). *)
Definition main `{Library} (query : string) (file : option string) : IO unit :=
  papers ← fetch_papers_from_pubmed query 5;
  match papers with
  | _ :: _ =>
      match file with
      | Some (String c f) => save_to_csv papers (String c f)
      | Some EmptyString | None => print_results papers
      end
  | [] => print "No results found."
  end.

(** ** A concrete library, for running the module on examples

    [ET.tostring] on a tree whose tags carry no namespace, a server that
    answers from a script (one answer per request, in order), a parser
    with a fixed outcome and a disk where every name opens as a file of
    its own. *)

Fixpoint escape_cdata (s : string) : string :=
  match s with
  | EmptyString => EmptyString
  | String c s' =>
      (if decide (c = "&"%char) then "&amp;"
       else if decide (c = "<"%char) then "&lt;"
       else if decide (c = ">"%char) then "&gt;"
       else String c EmptyString) +:+ escape_cdata s'
  end.

Fixpoint escape_attrib (s : string) : string :=
  match s with
  | EmptyString => EmptyString
  | String c s' =>
      (if decide (c = "&"%char) then "&amp;"
       else if decide (c = "<"%char) then "&lt;"
       else if decide (c = ">"%char) then "&gt;"
       else if decide (c = dquote) then "&quot;"
       else if decide (c = CR) then "&#13;"
       else if decide (c = LF) then "&#10;"
       else if decide (c = "009"%char) then "&#09;"
       else String c EmptyString) +:+ escape_attrib s'
  end.

Definition nonempty_text (t : option string) : string :=
  match t with Some s => escape_cdata s | None => EmptyString end.

Definition write_attrib (kv : string * string) : string :=
  " " +:+ kv.1 +:+ "=" +:+ String dquote (escape_attrib kv.2 +:+ String dquote EmptyString).

Fixpoint plain_tostring (e : Element) : string :=
  match e with
  | mkElement tg attrs txt tl cs =>
      "<" +:+ tg +:+ String.concat EmptyString (write_attrib <$> attrs) +:+
      (match nonempty_text txt, cs with
       | EmptyString, [] => " />"
       | body, _ =>
           ">" +:+ body +:+ String.concat EmptyString (map plain_tostring cs) +:+
           "</" +:+ tg +:+ ">"
       end) +:+ nonempty_text tl
  end.

Definition scripted (answers : list (pyresult Response)) (root : pyresult Element)
  : Library :=
  {| requests_get log _ := nth (length log) answers (Raise ConnectionError);
     ET_fromstring _ := root;
     ET_tostring := plain_tostring;
     builtin_open name := Ok name |}.

(** The same library on another disk. *)
Definition on_disk (lib : Library) (disk : string -> pyresult string) : Library :=
  {| requests_get := @requests_get lib;
     ET_fromstring := @ET_fromstring lib;
     ET_tostring := @ET_tostring lib;
     builtin_open := disk |}.

(** A disk without the directory [nodir], where the empty name cannot be
    opened and [./out.csv] is the file [out.csv]. *)
Definition demo_disk (name : string) : pyresult string :=
  if decide (name = EmptyString) then Raise OSError
  else if starts_with "nodir/" name then Raise OSError
  else if decide (name = "./out.csv") then Ok "out.csv"
  else Ok name.

Definition leaf (tg s : string) : Element := mkElement tg [] (Some s) None [].
Definition node (tg : string) (cs : list Element) : Element := mkElement tg [] None None cs.

Definition world0 : World := mkWorld [] [] ∅.

(** The scenario of the specification: two articles, a company author in
    the first one only. *)
Definition author_acme : Element :=
  node "Author"
    [leaf "LastName" "Doe"; leaf "ForeName" "Jane";
     node "AffiliationInfo" [leaf "Affiliation" "Acme Pharma Inc., jane.doe@acme.com"]].
Definition author_univ : Element :=
  node "Author"
    [leaf "LastName" "Roe"; leaf "ForeName" "Rick";
     node "AffiliationInfo" [leaf "Affiliation" "State University"]].
Definition article_111 : Element :=
  node "PubmedArticle"
    [leaf "PMID" "111"; leaf "ArticleTitle" "On quotes, commas";
     node "AuthorList" [author_acme; author_univ]].
Definition article_222 : Element :=
  node "PubmedArticle"
    [leaf "PMID" "222"; node "AuthorList" [author_univ]].
Definition demo_root : Element := node "PubmedArticleSet" [article_111; article_222].

(** An author whose affiliation element is there but empty
    ([<Affiliation/>]), and authors with name parts missing or empty. *)
Definition author_blank : Element :=
  node "Author"
    [leaf "LastName" "Doe"; leaf "ForeName" "Jane";
     node "AffiliationInfo" [node "Affiliation" []]].
Definition article_blank : Element :=
  node "PubmedArticle" [leaf "PMID" "333"; node "AuthorList" [author_blank]].
Definition author_collective : Element :=
  node "Author" [leaf "CollectiveName" "The Study Group"].
Definition author_no_forename_text : Element :=
  node "Author" [leaf "LastName" "Doe"; node "ForeName" []].

(** An article whose only e-mail address is in the abstract. *)
Definition article_mail : Element :=
  node "PubmedArticle"
    [leaf "PMID" "444";
     node "Abstract" [leaf "AbstractText" "Contact: a.b@lab.example.org, or call."];
     node "AuthorList" [author_univ]].

Definition ids_body (ids : list string) : json :=
  JObj [("esearchresult", JObj [("idlist", JArr (JStr <$> ids))])].
Definition ok_search (ids : list string) : pyresult Response :=
  Ok (mkResponse 200 (Some (ids_body ids)) EmptyString).
Definition ok_fetch : pyresult Response :=
  Ok (mkResponse 200 None "<PubmedArticleSet>...</PubmedArticleSet>").

(** A server whose answer to the search has status 300 and a body all
    the same, and one that answers the fetch that way. *)
Definition lib_search_300 : Library :=
  scripted [Ok (mkResponse 300 (Some (ids_body [])) EmptyString)] (Raise ParseError).
Definition lib_fetch_300 : Library :=
  scripted [ok_search ["111"; "222"];
            Ok (mkResponse 300 None "<PubmedArticleSet>...</PubmedArticleSet>")]
    (Ok demo_root).
(** Servers that fail: the search with status 500, the fetch with 404. *)
Definition lib_search_500 : Library :=
  scripted [Ok (mkResponse 500 None "Internal Server Error"); ok_fetch] (Ok demo_root).
Definition lib_fetch_404 : Library :=
  scripted [ok_search ["111"; "222"]; Ok (mkResponse 404 None "Not Found")] (Ok demo_root).
(** A batch whose second article has no PMID element. *)
Definition article_no_pmid : Element :=
  node "PubmedArticle"
    [leaf "ArticleTitle" "Untitled"; node "AuthorList" [author_acme]].
Definition lib_no_pmid : Library :=
  scripted [ok_search ["111"; "555"]; ok_fetch]
    (Ok (node "PubmedArticleSet" [article_111; article_no_pmid; article_222])).
(** A search that finds nothing. *)
Definition lib_no_ids : Library := scripted [ok_search []; ok_fetch] (Ok demo_root).

(** The values line 49 makes a record of: identifier, title, authors,
    affiliations, e-mail address. *)
Definition paper_from
    (v : option string * option string * list string * list string * option string)
  : Paper :=
  let '(paper_id, title, authors, company_affiliations, email) := v in
  make_paper paper_id title authors company_affiliations email.

(** A result set with quotes and commas inside the fields, and a title
    without text. *)
Definition quoted_title : string :=
  String dquote ("Big" +:+ String dquote " data, small labs").
Definition demo_papers : list Paper :=
  [make_paper (Some "111") (Some quoted_title)
     ["Jane Doe"; "Unknown"] ["Acme Pharma Inc."; "Zed Biotech"] None;
   make_paper (Some "222") None [] [] (Some "a.b@lab.example.org")].


Definition demo_lib : Library := scripted [ok_search ["111"; "222"]; ok_fetch] (Ok demo_root).

(** More worlds and servers to run the module on. *)
Definition world1 : World :=
  mkWorld [] ["earlier output"]
    (<["out.csv" := "old content"]> (<["notes.txt" := "keep"]> ∅)).
Definition demo_dicts : list Paper :=
  [("Title", Some "Only a title")] :: [] :: demo_papers.
Definition dict_with_unknown_key : Paper :=
  [("PubmedID", Some "9"); ("Journal", Some "Nature")].
Definition article_markup_title : Element :=
  node "PubmedArticle"
    [leaf "PMID" "666";
     mkElement "ArticleTitle" [] None None
       [mkElement "i" [] (Some "In vitro") (Some " study") []]].
Definition lib_no_articles : Library :=
  scripted [ok_search ["111"]; ok_fetch] (Ok (node "PubmedArticleSet" [])).
Definition lib_no_keys : Library :=
  scripted [Ok (mkResponse 200 (Some (JObj [("header", JObj [])])) EmptyString)]
    (Ok demo_root).
Definition lib_json_list : Library :=
  scripted [Ok (mkResponse 200 (Some (JArr [])) EmptyString)] (Ok demo_root).
Definition lib_numeric_ids : Library :=
  scripted [Ok (mkResponse 200
                  (Some (JObj [("esearchresult",
                                JObj [("idlist", JArr [JStr "111"; JNum 222])])]))
                  EmptyString); ok_fetch]
    (Ok demo_root).
Definition lib_down : Library := scripted [] (Ok demo_root).
Definition lib_not_json : Library :=
  scripted [Ok (mkResponse 200 None "<html>busy</html>")] (Ok demo_root).
Definition lib_fetch_down : Library := scripted [ok_search ["111"]] (Ok demo_root).
Definition lib_bad_xml : Library :=
  scripted [ok_search ["111"]; ok_fetch] (Raise ParseError).

(** ** Notions the properties are stated with *)

(** [kw] occurs in [s] as a substring. *)
Definition substring_of (kw s : string) : Prop :=
  ∃ pre post, s = pre +:+ kw +:+ post.

Fixpoint str_forall (f : ascii -> bool) (s : string) : bool :=
  match s with
  | EmptyString => true
  | String c s' => f c && str_forall f s'
  end.

(** [Matches p m]: the text [m], as a whole, belongs to the language of
    the pattern [p]. *)
Inductive Matches : regex -> string -> Prop :=
| Matches_nil : Matches [] EmptyString
| Matches_lit c p m : Matches p m -> Matches (Lit c :: p) (String c m)
| Matches_rep cls min p u m :
    str_forall cls u = true -> (min <= String.length u)%nat -> Matches p m ->
    Matches (Rep cls min :: p) (u +:+ m).

(** [m] is a match of [p] in [s] and no match starts at a smaller offset. *)
Definition leftmost_match (p : regex) (s m : string) : Prop :=
  ∃ pre post, s = pre +:+ m +:+ post ∧ Matches p m ∧
    ∀ pre' m' post', s = pre' +:+ m' +:+ post' -> Matches p m' ->
      (String.length pre <= String.length pre')%nat.

(** [m] is the first match of [p] in [s]: a match such that every other
    match starts further right, or starts at the same offset and is no
    longer. *)
Definition first_match (p : regex) (s m : string) : Prop :=
  ∃ pre post, s = pre +:+ m +:+ post ∧ Matches p m ∧
    ∀ pre' m' post', s = pre' +:+ m' +:+ post' -> Matches p m' ->
      (String.length pre < String.length pre')%nat
      ∨ (String.length pre = String.length pre'
         ∧ (String.length m' <= String.length m)%nat).

(** [p] never prefers a shorter match: what [re_match] returns at an
    offset is the longest match there. *)
Definition longest_first (p : regex) : Prop :=
  ∀ s m m' rest, re_match p s = Some m -> s = m' +:+ rest -> Matches p m' ->
    (String.length m' <= String.length m)%nat.

(** The text of an author's first affiliation element. *)
Definition affiliation_of (author : Element) : option string :=
  find_desc "Affiliation" author ≫= text.

Definition names_company (author : Element) : bool :=
  match affiliation_of author with
  | Some affiliation => is_company affiliation
  | None => false
  end.

(** The authors of an article, in document order, whose affiliation
    names a company. *)
Definition company_authors (article : Element) : list Element :=
  List.filter names_company (findall_desc "Author" article).

(** A dict as line 49 builds it. *)
Definition paper_record (paper : Paper) : Prop :=
  ∃ paper_id title authors company_affiliations corresponding_email,
    paper = make_paper paper_id title authors company_affiliations corresponding_email.

(** Stage 1 goes through in the world [w] and yields [paper_ids]: the
    server answers, the status is no error and the body is a JSON object
    leading to [paper_ids]. *)
Definition search_yields `{Library} (query : string) (max_results : Z)
    (w : World) (paper_ids : json) : Prop :=
  ∃ response search_data esearchresult,
    requests_get (sent w) (search_request query max_results) = Ok response
    ∧ raise_for_status response = Ok tt
    ∧ body_json response = Some search_data
    ∧ dict_get search_data "esearchresult" (JObj []) = Ok esearchresult
    ∧ dict_get esearchresult "idlist" (JArr []) = Ok paper_ids.

(** The world after the requests [rqs] have been sent and nothing else
    has happened. *)
Definition after_requests (w : World) (rqs : list Request) : World :=
  mkWorld (sent w ++ rqs) (stdout w) (files w).

Definition is_2xx (status : Z) : Prop := 200 <= status < 300.

(** Reading CSV text back, as [csv.reader] does with the default dialect
    on a file opened with [newline=""]: the rows, each a list of fields. *)
Inductive csv_state : Type :=
| START_RECORD | START_FIELD | IN_FIELD
| IN_QUOTED_FIELD | QUOTE_IN_QUOTED_FIELD
| EAT_CR.    (* after a carriage return that ended a row *)

Record csv_reader_state : Type := mkReader {
  r_state : csv_state;
  r_field : string;          (* the field being read *)
  r_row : list string        (* the fields of the row read so far *)
}.

(** A character at the start of a field. *)
Definition start_field (row : list string) (c : ascii)
  : csv_reader_state * list (list string) :=
  if decide (c = LF) then (mkReader START_RECORD EmptyString [], [row ++ [EmptyString]])
  else if decide (c = CR) then (mkReader EAT_CR EmptyString (row ++ [EmptyString]), [])
  else if decide (c = dquote) then (mkReader IN_QUOTED_FIELD EmptyString row, [])
  else if decide (c = ","%char) then (mkReader START_FIELD EmptyString (row ++ [EmptyString]), [])
  else (mkReader IN_FIELD (String c EmptyString) row, []).

(** A character at the start of a row. *)
Definition start_record (c : ascii) : csv_reader_state * list (list string) :=
  if decide (c = LF) then (mkReader START_RECORD EmptyString [], [[]])
  else if decide (c = CR) then (mkReader EAT_CR EmptyString [], [])
  else start_field [] c.

(** A character that ends the field [fld], or goes on with it. *)
Definition end_or_add (fld : string) (row : list string) (c : ascii)
  : csv_reader_state * list (list string) :=
  if decide (c = LF) then (mkReader START_RECORD EmptyString [], [row ++ [fld]])
  else if decide (c = CR) then (mkReader EAT_CR EmptyString (row ++ [fld]), [])
  else if decide (c = ","%char) then (mkReader START_FIELD EmptyString (row ++ [fld]), [])
  else (mkReader IN_FIELD (fld +:+ String c EmptyString) row, []).

(** One character: the next state and the rows completed by it. *)
Definition csv_step (r : csv_reader_state) (c : ascii)
  : csv_reader_state * list (list string) :=
  match r_state r with
  | START_RECORD => start_record c
  | START_FIELD => start_field (r_row r) c
  | IN_FIELD => end_or_add (r_field r) (r_row r) c
  | IN_QUOTED_FIELD =>
      if decide (c = dquote)
      then (mkReader QUOTE_IN_QUOTED_FIELD (r_field r) (r_row r), [])
      else (mkReader IN_QUOTED_FIELD (r_field r +:+ String c EmptyString) (r_row r), [])
  | QUOTE_IN_QUOTED_FIELD =>
      if decide (c = dquote)
      then (mkReader IN_QUOTED_FIELD (r_field r +:+ String c EmptyString) (r_row r), [])
      else end_or_add (r_field r) (r_row r) c
  | EAT_CR =>
      if decide (c = LF) then (mkReader START_RECORD EmptyString [], [r_row r])
      else let '(r', rows) := start_record c in (r', r_row r :: rows)
  end.

(** The row left open when the text ends. *)
Definition csv_flush (r : csv_reader_state) : list (list string) :=
  match r_state r with
  | START_RECORD => []
  | EAT_CR => [r_row r]
  | _ => [r_row r ++ [r_field r]]
  end.

Fixpoint csv_run (r : csv_reader_state) (s : string) : list (list string) :=
  match s with
  | EmptyString => csv_flush r
  | String c s' => let '(r', rows) := csv_step r c in rows ++ csv_run r' s'
  end.

Definition reader0 : csv_reader_state := mkReader START_RECORD EmptyString [].

Definition csv_reader (s : string) : list (list string) := csv_run reader0 s.

(** The reader after a field has ended on the character [d], a comma or a
    carriage return. *)
Definition after_field (d : ascii) (row : list string) : csv_reader_state :=
  if decide (d = ","%char) then mkReader START_FIELD EmptyString row
  else mkReader EAT_CR EmptyString row.
(** The loop over the authors gets past [author]: its first affiliation
    element, if it has one, carries text. *)
Definition author_ready (author : Element) : bool :=
  match find_desc "Affiliation" author with
  | Some affiliation_elem => bool_decide (is_Some (text affiliation_elem))
  | None => true
  end.

(** The loop over the articles gets past [article]: it has a PMID element
    and each of its authors is ready. *)
Definition article_ready (article : Element) : bool :=
  bool_decide (is_Some (find_desc "PMID" article))
  && forallb author_ready (findall_desc "Author" article).

(** The record of an article, read off the tree without a loop. *)
Definition title_of (article : Element) : option string :=
  match find_desc "ArticleTitle" article with
  | Some title_elem => text title_elem
  | None => Some "N/A"
  end.

Definition paper_of `{Library} (article : Element) : Paper :=
  make_paper (find_desc "PMID" article ≫= text) (title_of article)
    (author_name <$> company_authors article)
    (omap affiliation_of (company_authors article))
    (re_search EMAIL_RE (ET_tostring article)).

(** The line [print_results] prints for an entry of a paper. *)
Definition field_line (kv : string * option string) : string :=
  kv.1 +:+ ": " +:+ py_str kv.2.


(** Stages 1 and 2 go through in the world [w] and the XML parses to
    [root]: the search yields the identifiers [ids], not all of them
    missing, and the fetch is answered without an error status. *)
Definition fetch_yields `{Library} (query : string) (max_results : Z)
    (w : World) (ids : list string) (root : Element) : Prop :=
  ∃ paper_ids response,
    search_yields query max_results w paper_ids
    ∧ truthy paper_ids = true
    ∧ str_items paper_ids = Ok ids
    ∧ requests_get (sent w ++ [search_request query max_results]) (fetch_request ids)
      = Ok response
    ∧ raise_for_status response = Ok tt
    ∧ ET_fromstring (body_text response) = Ok root.

(** Every key of the dict is one of the field names (what [DictWriter]
    checks before it writes a row). *)
Definition known_keys (rowdict : Paper) : bool :=
  forallb (fun kv => bool_decide (kv.1 ∈ FIELDNAMES)) rowdict.

(** The text the writer produces for a list of rows. *)
Definition csv_text (rows : list (list string)) : string :=
  String.concat EmptyString (csv_row <$> rows).

(** A character an e-mail match can hold. *)
Definition email_char (c : ascii) : bool := cls_local c || bool_decide (c = "@"%char).

(** * Properties *)

(** ** Text *)

Lemma sapp_cons c (s t : string) : String c s +:+ t = String c (s +:+ t).
Proof. reflexivity. Qed.

Lemma sapp_nil_l (s : string) : EmptyString +:+ s = s.
Proof. reflexivity. Qed.

Lemma sapp_nil_r (s : string) : s +:+ EmptyString = s.
Proof. induction s as [|c s IH]; [done|]. by rewrite sapp_cons, IH. Qed.

Lemma sapp_assoc (a b c : string) : (a +:+ b) +:+ c = a +:+ b +:+ c.
Proof. induction a as [|x a IH]; [done|]. by rewrite !sapp_cons, IH. Qed.

Lemma slength_app (a b : string) :
  String.length (a +:+ b) = (String.length a + String.length b)%nat.
Proof. induction a as [|x a IH]; [done|]. rewrite sapp_cons. simpl. by rewrite IH. Qed.

Lemma starts_with_spec (p s : string) :
  starts_with p s = true ↔ ∃ post, s = p +:+ post.
Proof.
  revert s. induction p as [|a p IH]; intros s; simpl.
  - split; [intros _; by exists s | done].
  - destruct s as [|b s].
    + split; [done | intros [post Hs]; by rewrite sapp_cons in Hs].
    + destruct (decide (a = b)) as [->|Hne].
      * rewrite IH. split; intros [post Hs]; exists post.
        -- by rewrite sapp_cons, <- Hs.
        -- rewrite sapp_cons in Hs. congruence.
      * split; [done | intros [post Hs]]. rewrite sapp_cons in Hs. congruence.
Qed.

Lemma str_contains_spec (kw s : string) :
  str_contains kw s = true ↔ substring_of kw s.
Proof.
  unfold substring_of. induction s as [|c s IH]; simpl.
  - rewrite orb_false_r, starts_with_spec. split.
    + intros [post Hs]. by exists EmptyString, post.
    + intros ([|x pre] & post & Hs); [by exists post | done].
  - rewrite orb_true_iff, starts_with_spec, IH. split.
    + intros [[post Hs] | (pre & post & Hs)].
      * by exists EmptyString, post.
      * exists (String c pre), post. by rewrite sapp_cons, <- Hs.
    + intros ([|x pre] & post & Hs).
      * left. by exists post.
      * right. exists pre, post. rewrite sapp_cons in Hs. congruence.
Qed.

Lemma is_company_spec (affiliation : string) :
  is_company affiliation = true ↔
  ∃ keyword, keyword ∈ COMPANY_KEYWORDS ∧ substring_of keyword affiliation.
Proof.
  unfold is_company. rewrite existsb_exists. split.
  - intros (kw & Hin & Hc). exists kw. split.
    + by apply list_elem_of_In.
    + by apply str_contains_spec.
  - intros (kw & Hin & Hc). exists kw. split.
    + by apply list_elem_of_In.
    + by apply str_contains_spec.
Qed.

Lemma is_company_false (affiliation : string) :
  is_company affiliation = false ↔
  ∀ keyword, keyword ∈ COMPANY_KEYWORDS -> ¬ substring_of keyword affiliation.
Proof.
  rewrite <- not_true_iff_false, is_company_spec. split.
  - intros Hno kw Hin Hsub. apply Hno. by exists kw.
  - intros Hno (kw & Hin & Hsub). by apply (Hno kw).
Qed.

(** ** The classifier (C1) *)

(** C1. An affiliation string is classified as a company exactly when one
    of the seven keywords occurs in it as a substring (compared byte for
    byte, so case matters); an author whose affiliation holds none of
    them leaves both lists as they were. *)
Theorem classifier_company_iff_keyword (affiliation : string) :
  (is_company affiliation = true ↔
   ∃ keyword, keyword ∈ ["Inc."; "Ltd."; "Pharma"; "Biotech"; "Corp.";
                          "Therapeutics"; "Laboratories"]
              ∧ substring_of keyword affiliation)
  ∧ ((∀ keyword, keyword ∈ COMPANY_KEYWORDS -> ¬ substring_of keyword affiliation) ->
     ∀ author affiliation_elem authors company_affiliations,
       find_desc "Affiliation" author = Some affiliation_elem ->
       text affiliation_elem = Some affiliation ->
       visit_author (authors, company_affiliations) author
       = Ok (authors, company_affiliations)).
Proof.
  split; [apply is_company_spec|].
  intros Hnone%is_company_false author elem authors affs Hfind Htext.
  unfold visit_author. by rewrite Hfind, Htext, Hnone.
Qed.

Lemma classifier_company_iff_keyword_witness :
  is_company "Acme Pharma Inc., jane.doe@acme.com" = true
  ∧ is_company "acme pharma inc" = false
  ∧ visit_author (["Jane Doe"], ["Acme Pharma Inc."]) author_univ
    = Ok (["Jane Doe"], ["Acme Pharma Inc."]).
Proof.
  split; [|split].
  - apply (classifier_company_iff_keyword "Acme Pharma Inc., jane.doe@acme.com").
    exists "Pharma". split; [repeat constructor|]. by exists "Acme ", " Inc., jane.doe@acme.com".
  - vm_compute. reflexivity.
  - apply (proj2 (classifier_company_iff_keyword "State University"))
      with (affiliation_elem := leaf "Affiliation" "State University").
    + apply is_company_false. vm_compute. reflexivity.
    + vm_compute. reflexivity.
    + reflexivity.
Defined.

(** ** Display names (C6, C10) *)

Lemma no_space_in_unknown (a b : string) : a +:+ " " +:+ b ≠ "Unknown".
Proof.
  intros Heq.
  assert (Hc : str_exists (fun c => bool_decide (c = " "%char)) (a +:+ " " +:+ b) = true).
  { clear Heq. induction a as [|x a IH]; [done|].
    rewrite sapp_cons. simpl. by rewrite IH, orb_true_r. }
  rewrite Heq in Hc. vm_compute in Hc. discriminate.
Qed.

(** C6. An author node without a given-name child or without a
    family-name child is named exactly [Unknown]; with both children
    present and carrying text, the name is the given name, a space and the
    family name. *)
Theorem display_name_unknown_or_composed (author : Element) :
  ((find_child "ForeName" author = None ∨ find_child "LastName" author = None) ->
   author_name author = "Unknown")
  ∧ (∀ fore_name last_name given family,
       find_child "ForeName" author = Some fore_name ->
       find_child "LastName" author = Some last_name ->
       text fore_name = Some given -> text last_name = Some family ->
       author_name author = given +:+ " " +:+ family).
Proof.
  unfold author_name. split.
  - intros [-> | ->]; [by destruct (find_child "LastName" author)|done].
  - intros fore_name last_name given family -> -> -> ->. reflexivity.
Qed.

Lemma display_name_unknown_or_composed_witness :
  author_name author_collective = "Unknown" ∧ author_name author_acme = "Jane Doe".
Proof.
  split.
  - apply (proj1 (display_name_unknown_or_composed author_collective)).
    left. reflexivity.
  - apply (proj2 (display_name_unknown_or_composed author_acme)
             (leaf "ForeName" "Jane") (leaf "LastName" "Doe") "Jane" "Doe");
      reflexivity.
Defined.

(** C10. When both name children are present but one of them has no text,
    the name is what the f-string makes of [None]: the word [None] stands
    in for the missing part, and the result is never [Unknown]. *)
Theorem display_name_of_textless_parts (author fore_name last_name : Element) :
  find_child "ForeName" author = Some fore_name ->
  find_child "LastName" author = Some last_name ->
  text fore_name = None ∨ text last_name = None ->
  author_name author = py_str (text fore_name) +:+ " " +:+ py_str (text last_name)
  ∧ (text fore_name = None ->
     author_name author = "None " +:+ py_str (text last_name))
  ∧ (text last_name = None ->
     author_name author = py_str (text fore_name) +:+ " None")
  ∧ author_name author ≠ "Unknown".
Proof.
  intros Hf Hl _. unfold author_name. rewrite Hf, Hl.
  split; [done|]. split; [by intros ->|]. split; [by intros ->|].
  apply no_space_in_unknown.
Qed.

Lemma display_name_of_textless_parts_witness :
  author_name author_no_forename_text = "None Doe"
  ∧ author_name author_no_forename_text ≠ "Unknown".
Proof.
  pose proof (display_name_of_textless_parts author_no_forename_text
                (node "ForeName" []) (leaf "LastName" "Doe")
                eq_refl eq_refl (or_introl eq_refl)) as (_ & Hnone & _ & Hne).
  split; [exact (Hnone eq_refl) | exact Hne].
Defined.

(** ** Authors without a usable affiliation (C2) *)

Lemma visit_author_no_affiliation acc (author : Element) :
  find_desc "Affiliation" author = None -> visit_author acc author = Ok acc.
Proof. intros Hf. unfold visit_author. by rewrite Hf. Qed.

Lemma visit_author_empty_text acc (author affiliation_elem : Element) :
  find_desc "Affiliation" author = Some affiliation_elem ->
  text affiliation_elem = Some EmptyString ->
  visit_author acc author = Ok acc.
Proof. intros Hf Ht. unfold visit_author. by rewrite Hf, Ht. Qed.

Lemma visit_author_no_text acc (author affiliation_elem : Element) :
  find_desc "Affiliation" author = Some affiliation_elem ->
  text affiliation_elem = None ->
  visit_author acc author = Raise TypeError.
Proof. intros Hf Ht. unfold visit_author. by rewrite Hf, Ht. Qed.

(** C2, where the code departs from it.  An affiliation element that is
    present but empty ([<Affiliation/>], whose text is [None]) does not
    make the extractor skip the author: the keyword test raises a
    [TypeError], the article yields no record and the whole run ends with
    that error. *)
Theorem empty_affiliation_element_raises :
  visit_author ([], []) author_blank = Raise TypeError
  ∧ @extract_authors_and_affiliations demo_lib article_blank = Raise TypeError
  ∧ @main (scripted [ok_search ["333"]; ok_fetch]
             (Ok (node "PubmedArticleSet" [article_blank])))
      "cancer research" (Some "out.csv") world0
    = (mkWorld [search_request "cancer research" 5; fetch_request ["333"]] [] ∅,
       Raise TypeError).
Proof. split; [|split]; vm_compute; reflexivity. Qed.

(** ** The two lists of an article (C7) *)

Lemma visit_author_cases acc acc' (author : Element) :
  visit_author acc author = Ok acc' ->
  (names_company author = false ∧ acc' = acc)
  ∨ (names_company author = true ∧
     ∃ affiliation, affiliation_of author = Some affiliation ∧
       acc' = (acc.1 ++ [author_name author], acc.2 ++ [affiliation])).
Proof.
  unfold visit_author, names_company, affiliation_of.
  destruct (find_desc "Affiliation" author) as [elem|]; simpl.
  - destruct (text elem) as [affiliation|]; [|done].
    destruct (is_company affiliation); intros [= <-]; [right|left]; eauto.
  - intros [= <-]. by left.
Qed.

Lemma visit_authors_ok (l : list Element) :
  ∀ acc acc', for_each visit_author l acc = Ok acc' ->
    acc'.1 = acc.1 ++ (author_name <$> List.filter names_company l)
    ∧ Some <$> acc'.2 = (Some <$> acc.2) ++ (affiliation_of <$> List.filter names_company l).
Proof.
  induction l as [|a l IH]; intros acc acc'; simpl.
  - intros [= <-]. by rewrite !app_nil_r.
  - destruct (visit_author acc a) as [acc1|e] eqn:Hv; [|done].
    intros Hrest%IH. destruct Hrest as [H1 H2].
    destruct (visit_author_cases _ _ _ Hv) as [[Hn ->] | (Hn & aff & Haff & ->)];
      rewrite Hn; [done|].
    simpl in *. rewrite H1, H2, fmap_app, <- !app_assoc, Haff. done.
Qed.

Lemma extract_ok `{Library} (article : Element) authors affs email :
  extract_authors_and_affiliations article = Ok (authors, affs, email) ->
  for_each visit_author (findall_desc "Author" article) ([], []) = Ok (authors, affs)
  ∧ email = re_search EMAIL_RE (ET_tostring article).
Proof.
  unfold extract_authors_and_affiliations.
  destruct (for_each visit_author _ _) as [[a f]|e]; [|done].
  by intros [= <- <- <-].
Qed.

(** C7. In what the extractor returns for an article, the authors and
    the affiliations go pairwise: both lists have one entry per author, in
    document order, whose affiliation names a company; entry [i] of the
    first is that author's display name and entry [i] of the second is the
    text of that author's affiliation. *)
Theorem authors_and_affiliations_parallel `{Library} (article : Element)
    (authors company_affiliations : list string) (email : option string) :
  extract_authors_and_affiliations article = Ok (authors, company_affiliations, email) ->
  length authors = length company_affiliations
  ∧ authors = author_name <$> company_authors article
  ∧ Some <$> company_affiliations = affiliation_of <$> company_authors article
  ∧ ∀ i name, authors !! i = Some name ->
      ∃ author affiliation,
        company_authors article !! i = Some author
        ∧ name = author_name author
        ∧ company_affiliations !! i = Some affiliation
        ∧ affiliation_of author = Some affiliation.
Proof.
  intros [Hloop _]%extract_ok.
  apply visit_authors_ok in Hloop as [Ha Hf]. simpl in Ha, Hf.
  fold (company_authors article) in Ha, Hf.
  assert (Hlen : length authors = length company_affiliations).
  { rewrite Ha, length_fmap, <- (length_fmap affiliation_of), <- Hf.
    by rewrite length_fmap. }
  split; [done|]. split; [done|]. split; [done|].
  intros i name Hi. subst authors.
  apply list_lookup_fmap_Some in Hi as (author & -> & Hauthor).
  assert (Haff : (Some <$> company_affiliations) !! i
                 = Some (affiliation_of author)).
  { by rewrite Hf, list_lookup_fmap, Hauthor. }
  rewrite list_lookup_fmap in Haff.
  destruct (company_affiliations !! i) as [affiliation|] eqn:Hci; [|done].
  simpl in Haff. exists author, affiliation. naive_solver.
Qed.

Lemma authors_and_affiliations_parallel_witness :
  length ["Jane Doe"] = length ["Acme Pharma Inc., jane.doe@acme.com"]
  ∧ ["Jane Doe"] = author_name <$> company_authors article_111
  ∧ Some <$> ["Acme Pharma Inc., jane.doe@acme.com"]
    = affiliation_of <$> company_authors article_111
  ∧ ∀ i name, ["Jane Doe"] !! i = Some name ->
      ∃ author affiliation,
        company_authors article_111 !! i = Some author
        ∧ name = author_name author
        ∧ ["Acme Pharma Inc., jane.doe@acme.com"] !! i = Some affiliation
        ∧ affiliation_of author = Some affiliation.
Proof.
  apply (@authors_and_affiliations_parallel demo_lib article_111
           ["Jane Doe"] ["Acme Pharma Inc., jane.doe@acme.com"]
           (Some "jane.doe@acme.com")).
  vm_compute. reflexivity.
Defined.

(** ** The e-mail pattern (C5) *)

Section Backtracking.
Variable p : regex.
Variable k : string -> option string.

(** [k] is a matcher for the pattern [p]: what it returns is a prefix of
    its input in the language of [p], and it finds a match when the
    input has a prefix in the language. *)
Hypothesis k_sound :
  ∀ s m, k s = Some m -> Matches p m ∧ ∃ rest, s = m +:+ rest.
Hypothesis k_complete :
  ∀ m rest, Matches p m -> is_Some (k (m +:+ rest)).

Lemma Matches_rep_cons cls min c m :
  cls c = true -> Matches (Rep cls (pred min) :: p) m ->
  Matches (Rep cls min :: p) (String c m).
Proof.
  intros Hc Hm. inversion Hm as [| |cls' min' p' u v Hu Hlen Hv]; subst.
  rewrite <- sapp_cons. constructor; [|simpl; lia|done].
  simpl. by rewrite Hc.
Qed.

Lemma greedy_stop cls min s m :
  match min with O => k s | S _ => None end = Some m ->
  Matches (Rep cls min :: p) m ∧ ∃ rest, s = m +:+ rest.
Proof.
  destruct min; [|done]. intros [Hm Hrest]%k_sound. split; [|done].
  rewrite <- (sapp_nil_l m). by constructor.
Qed.

Lemma greedy_sound cls s :
  ∀ min m, greedy cls k min s = Some m ->
    Matches (Rep cls min :: p) m ∧ ∃ rest, s = m +:+ rest.
Proof.
  induction s as [|c s IH]; intros min m; simpl.
  - apply greedy_stop.
  - destruct (cls c) eqn:Hc; [|apply greedy_stop].
    destruct (greedy cls k (pred min) s) as [m'|] eqn:Hg; [|apply greedy_stop].
    intros [= <-]. apply IH in Hg as [Hm [rest ->]]. split.
    + by apply Matches_rep_cons.
    + by exists rest.
Qed.

Lemma greedy_complete cls u :
  ∀ min v rest, str_forall cls u = true -> (min <= String.length u)%nat ->
    Matches p v -> is_Some (greedy cls k min (u +:+ v +:+ rest)).
Proof.
  induction u as [|c u IH]; intros min v rest Hu Hlen Hv.
  - simpl in Hlen. assert (min = O) as -> by lia. rewrite sapp_nil_l.
    pose proof (k_complete v rest Hv) as Hk.
    destruct (v +:+ rest) as [|c s]; simpl; [done|].
    destruct (cls c); [|done]. by destruct (greedy cls k 0 s).
  - simpl in Hu, Hlen. apply andb_true_iff in Hu as [Hc Hu].
    rewrite sapp_cons. simpl. rewrite Hc.
    destruct (IH (pred min) v rest Hu ltac:(lia) Hv) as [m' ->]. done.
Qed.
End Backtracking.

Lemma re_match_sound (p : regex) :
  ∀ s m, re_match p s = Some m -> Matches p m ∧ ∃ rest, s = m +:+ rest.
Proof.
  induction p as [|[c|cls min] p IH]; intros s m; simpl.
  - intros [= <-]. split; [constructor | by exists s].
  - destruct s as [|c' s]; [done|]. destruct (decide (c = c')) as [<-|]; [|done].
    destruct (re_match p s) as [m'|] eqn:Hm; [|done]. intros [= <-].
    apply IH in Hm as [Hm [rest ->]]. split; [by constructor | by exists rest].
  - apply (greedy_sound p (re_match p) IH).
Qed.

Lemma re_match_complete (p : regex) :
  ∀ m rest, Matches p m -> is_Some (re_match p (m +:+ rest)).
Proof.
  induction p as [|[c|cls min] p IH]; intros m rest Hm;
    inversion Hm as [|c' p' m' Hm'|cls' min' p' u v Hu Hlen Hv]; subst; simpl.
  - done.
  - rewrite decide_True by done. by destruct (IH m' rest Hm') as [x ->].
  - rewrite sapp_assoc. by apply (greedy_complete p (re_match p) IH).
Qed.

(** What [re_search] returns is a match, and the leftmost one. *)
Lemma re_search_leftmost (p : regex) (s : string) :
  ∀ m, re_search p s = Some m -> leftmost_match p s m.
Proof.
  induction s as [|c s IH]; intros m; simpl.
  - destruct (re_match p EmptyString) as [m'|] eqn:Hm; [|done]. intros [= <-].
    apply re_match_sound in Hm as [Hm [rest Hrest]].
    exists EmptyString, rest. split; [done|]. split; [done|]. intros. simpl. lia.
  - destruct (re_match p (String c s)) as [m'|] eqn:Hm.
    + intros [= <-]. apply re_match_sound in Hm as [Hm [rest Hrest]].
      exists EmptyString, rest. split; [done|]. split; [done|]. intros. simpl. lia.
    + intros (pre & post & -> & Hmm & Hleft)%IH.
      exists (String c pre), post. split; [done|]. split; [done|].
      intros [|c' pre'] m' post' Heq Hm'.
      * rewrite sapp_nil_l in Heq.
        destruct (re_match_complete p m' post' Hm') as [x Hx].
        rewrite <- Heq in Hx. congruence.
      * rewrite sapp_cons in Heq. injection Heq as <- Heq.
        specialize (Hleft pre' m' post' Heq Hm'). simpl. lia.
Qed.

(** [re_search] finds nothing exactly when no substring matches. *)
Lemma re_search_none (p : regex) (s : string) :
  re_search p s = None ↔ ∀ m, substring_of m s -> ¬ Matches p m.
Proof.
  split.
  - induction s as [|c s IH]; simpl;
      destruct (re_match p _) as [x|] eqn:Hx; try done;
      intros Hnone m (pre & post & Heq) Hm.
    + destruct pre; [|done]. rewrite sapp_nil_l in Heq.
      destruct (re_match_complete p m post Hm) as [y Hy]. congruence.
    + destruct pre as [|c' pre].
      * rewrite sapp_nil_l in Heq.
        destruct (re_match_complete p m post Hm) as [y Hy]. congruence.
      * rewrite sapp_cons in Heq. injection Heq as <- Heq.
        apply (IH Hnone m); [by exists pre, post | done].
  - intros Hno. destruct (re_search p s) as [m|] eqn:Hs; [|done].
    apply re_search_leftmost in Hs as (pre & post & Heq & Hm & _).
    exfalso. apply (Hno m); [by exists pre, post | done].
Qed.

Lemma sapp_eq_sapp (a b c d : string) :
  a +:+ b = c +:+ d -> (String.length a <= String.length c)%nat ->
  ∃ z, c = a +:+ z ∧ b = z +:+ d.
Proof.
  revert c. induction a as [|x a IH]; intros c Heq Hlen.
  - exists c. by rewrite sapp_nil_l in *.
  - destruct c as [|y c]; [simpl in Hlen; lia|].
    rewrite !sapp_cons in Heq. injection Heq as <- Heq.
    simpl in Hlen. destruct (IH c Heq ltac:(lia)) as (z & -> & ->).
    by exists z.
Qed.

Lemma sapp_eq_length (a b c d : string) :
  a +:+ b = c +:+ d -> String.length a = String.length c -> a = c ∧ b = d.
Proof.
  intros Heq Hlen. destruct (sapp_eq_sapp a b c d Heq ltac:(lia)) as (z & -> & ->).
  rewrite slength_app in Hlen. destruct z; [|simpl in Hlen; lia].
  by rewrite sapp_nil_r, sapp_nil_l.
Qed.

Lemma str_forall_app f (a b : string) :
  str_forall f (a +:+ b) = str_forall f a && str_forall f b.
Proof. induction a as [|x a IH]; [done|]. rewrite sapp_cons. simpl. by rewrite IH, andb_assoc. Qed.

Section Greedy.
Variable cls : ascii -> bool.
Variable k : string -> option string.

(** When the repetition fails, the rest fails after every admissible
    number of characters. *)
Lemma greedy_none (s : string) :
  ∀ min u t, greedy cls k min s = None -> s = u +:+ t ->
    str_forall cls u = true -> (min <= String.length u)%nat -> k t = None.
Proof.
  induction s as [|c s IH]; intros min u t Hg Heq Hu Hlen.
  - destruct u; [|done]. rewrite sapp_nil_l in Heq. subst t.
    simpl in Hg, Hlen. by assert (min = O) as -> by lia.
  - simpl in Hg. destruct u as [|x u].
    + rewrite sapp_nil_l in Heq. subst t. simpl in Hlen.
      assert (min = O) as -> by lia. simpl in Hg.
      destruct (cls c); [|done]. by destruct (greedy cls k 0 s).
    + rewrite sapp_cons in Heq. injection Heq as <- ->.
      simpl in Hu, Hlen. apply andb_true_iff in Hu as [Hc Hu]. rewrite Hc in Hg.
      destruct (greedy cls k (pred min) (u +:+ t)) eqn:Hg'; [done|].
      apply (IH (pred min) u t Hg' eq_refl Hu). lia.
Qed.

(** When it succeeds, it has taken the largest number of characters after
    which the rest succeeds. *)
Lemma greedy_max (s : string) :
  ∀ min m, greedy cls k min s = Some m ->
    ∃ u v t, m = u +:+ v ∧ s = u +:+ t ∧ str_forall cls u = true
      ∧ (min <= String.length u)%nat ∧ k t = Some v
      ∧ ∀ u' t', s = u' +:+ t' -> str_forall cls u' = true ->
          (String.length u < String.length u')%nat -> k t' = None.
Proof.
  assert (Hstop : ∀ s min m,
    match min with O => k s | S _ => None end = Some m ->
    (∀ u' t', s = u' +:+ t' -> str_forall cls u' = true ->
       (0 < String.length u')%nat -> k t' = None) ->
    ∃ u v t, m = u +:+ v ∧ s = u +:+ t ∧ str_forall cls u = true
      ∧ (min <= String.length u)%nat ∧ k t = Some v
      ∧ ∀ u' t', s = u' +:+ t' -> str_forall cls u' = true ->
          (String.length u < String.length u')%nat -> k t' = None).
  { intros s0 [|min] m Hk Hmax; [|done].
    exists EmptyString, m, s0. by repeat split. }
  induction s as [|c s IH]; intros min m Hg; simpl in Hg.
  - apply Hstop; [done|]. intros [|x u'] t' Heq _ Hlen; [simpl in Hlen; lia | done].
  - destruct (cls c) eqn:Hc.
    + destruct (greedy cls k (pred min) s) as [m1|] eqn:Hg1.
      * injection Hg as <-.
        destruct (IH _ _ Hg1) as (u & v & t & -> & -> & Hu & Hlen & Hk & Hmax).
        exists (String c u), v, t. repeat split; try done.
        -- simpl. by rewrite Hc.
        -- simpl. lia.
        -- intros [|x u'] t' Heq Hu' Hl; [simpl in Hl; lia|].
           rewrite sapp_cons in Heq. injection Heq as <- Heq.
           simpl in Hu', Hl. apply andb_true_iff in Hu' as [_ Hu'].
           apply (Hmax u' t' Heq Hu'). lia.
      * apply Hstop; [done|]. intros [|x u'] t' Heq Hu' Hl; [simpl in Hl; lia|].
        rewrite sapp_cons in Heq. injection Heq as <- Heq.
        simpl in Hu'. apply andb_true_iff in Hu' as [_ Hu'].
        destruct min; [|done].
        apply (greedy_none s 0%nat u' t' Hg1 Heq Hu'). lia.
    + apply Hstop; [done|]. intros [|x u'] t' Heq Hu' Hl; [simpl in Hl; lia|].
      rewrite sapp_cons in Heq. injection Heq as <- Heq.
      simpl in Hu'. by rewrite Hc in Hu'.
Qed.
End Greedy.

Lemma re_match_rep cls min (p : regex) s :
  re_match (Rep cls min :: p) s = greedy cls (re_match p) min s.
Proof. reflexivity. Qed.

Lemma longest_rep_last (cls : ascii -> bool) (min : nat) : longest_first [Rep cls min].
Proof.
  intros s m m' rest Hm Heq Hm'. rewrite re_match_rep in Hm.
  apply greedy_max in Hm as (u & v & t & -> & Hs & Hu & Hlen & Hk & Hmax).
  inversion Hm' as [| |cls' min' p' u' v' Hu' Hlen' Hv']; subst.
  inversion Hv'; subst. rewrite sapp_nil_r in *.
  destruct (decide (String.length u < String.length u')%nat) as [Hlt|];
    [|rewrite slength_app; lia].
  by specialize (Hmax u' rest Heq Hu' Hlt).
Qed.

Lemma longest_lit (c : ascii) (p : regex) :
  longest_first p -> longest_first (Lit c :: p).
Proof.
  intros Hp s m m' rest Hm Heq Hm'. simpl in Hm.
  destruct s as [|c' s]; [done|]. destruct (decide (c = c')) as [<-|]; [|done].
  destruct (re_match p s) as [m1|] eqn:Hm1; [|done]. injection Hm as <-.
  inversion Hm' as [|c'' p' m1' Hm1'|]; subst.
  rewrite sapp_cons in Heq. injection Heq as Heq.
  simpl. specialize (Hp s m1 m1' rest Hm1 Heq Hm1'). lia.
Qed.

(** A repetition followed by a character outside its class: where the
    repetition ends is forced. *)
Lemma longest_rep_then_lit (cls : ascii -> bool) (min : nat) (c : ascii) (p : regex) :
  cls c = false -> longest_first (Lit c :: p) ->
  longest_first (Rep cls min :: Lit c :: p).
Proof.
  intros Hc Hp s m m' rest Hm Heq Hm'. rewrite re_match_rep in Hm.
  apply greedy_max in Hm as (u & v & t & -> & Hs & Hu & Hlen & Hk & Hmax).
  inversion Hm' as [| |cls' min' p' u' v' Hu' Hlen' Hv']; subst.
  rewrite !slength_app. rewrite sapp_assoc in Heq. symmetry in Heq.
  destruct (lt_eq_lt_dec (String.length u') (String.length u)) as [[Hlt|Hl]|Hgt].
  - exfalso. destruct (sapp_eq_sapp u' (v' +:+ rest) u t Heq ltac:(lia))
      as (z & -> & Hz).
    inversion Hv' as [|c' p' w Hw|]; subst.
    rewrite slength_app in Hlt. destruct z as [|x z]; [simpl in Hlt; lia|].
    rewrite !sapp_cons in Hz. injection Hz as <- _.
    rewrite str_forall_app in Hu. simpl in Hu. rewrite Hc in Hu.
    by rewrite andb_false_r in Hu.
  - destruct (sapp_eq_length u' (v' +:+ rest) u t Heq Hl) as [-> <-].
    specialize (Hp (v' +:+ rest) v v' rest Hk eq_refl Hv'). lia.
  - exfalso. specialize (Hmax u' (v' +:+ rest) (eq_sym Heq) Hu' Hgt).
    destruct (re_match_complete (Lit c :: p) v' rest Hv') as [x Hx]. congruence.
Qed.

(** A repetition, a character and a last repetition that excludes the
    character, as in a domain name, its last dot and the letters after
    it: backing up over a dot never gives a longer match. *)
Lemma longest_rep_lit_rep (cls : ascii -> bool) (min : nat) (c : ascii)
    (cls2 : ascii -> bool) (min2 : nat) :
  cls2 c = false -> longest_first [Rep cls min; Lit c; Rep cls2 min2].
Proof.
  intros Hc s m m' rest Hm Heq Hm'. rewrite re_match_rep in Hm.
  apply greedy_max in Hm as (u & v & t & -> & Hs & Hu & Hlen & Hk & Hmax).
  inversion Hm' as [| |cls' min' p' u' v' Hu' Hlen' Hv']; subst.
  rewrite !slength_app. rewrite sapp_assoc in Heq. symmetry in Heq.
  destruct (lt_eq_lt_dec (String.length u') (String.length u)) as [[Hlt|Hl]|Hgt].
  - destruct (sapp_eq_sapp u' (v' +:+ rest) u t Heq ltac:(lia)) as (z & -> & Hz).
    apply (re_match_sound [Lit c; Rep cls2 min2]) in Hk as [Hv [rest_t ->]].
    inversion Hv as [|c1 p1 a Ha|]; subst.
    inversion Hv' as [|c2 p2 a' Ha'|]; subst.
    inversion Ha' as [| |cls3 min3 p3 ua' e Hua' _ He]; subst.
    inversion He; subst. rewrite sapp_nil_r in *.
    rewrite slength_app in *. destruct z as [|x z]; [simpl in Hlt; lia|].
    rewrite !sapp_cons in Hz. injection Hz as <- Hz. simpl.
    destruct (decide (String.length ua' <= String.length z)%nat); [lia|].
    exfalso.
    destruct (sapp_eq_sapp z (String c (a +:+ rest_t)) ua' rest (eq_sym Hz) ltac:(lia))
      as (y & -> & Hy).
    rewrite slength_app in *. destruct y as [|x y]; [simpl in *; lia|].
    rewrite sapp_cons in Hy. injection Hy as <- _.
    rewrite str_forall_app in Hua'. simpl in Hua'. rewrite Hc in Hua'.
    by rewrite andb_false_r in Hua'.
  - destruct (sapp_eq_length u' (v' +:+ rest) u t Heq Hl) as [-> <-].
    pose proof (longest_lit c _ (longest_rep_last cls2 min2)) as Hp.
    specialize (Hp (v' +:+ rest) v v' rest Hk eq_refl Hv'). lia.
  - exfalso. specialize (Hmax u' (v' +:+ rest) (eq_sym Heq) Hu' Hgt).
    destruct (re_match_complete [Lit c; Rep cls2 min2] v' rest Hv') as [x Hx].
    congruence.
Qed.

Lemma email_longest_first : longest_first EMAIL_RE.
Proof.
  apply longest_rep_then_lit; [done|].
  apply longest_lit. by apply longest_rep_lit_rep.
Qed.

(** With a pattern that never prefers a shorter match, [re_search] returns
    the first match: the leftmost one and, there, the longest. *)
Lemma re_search_first (p : regex) (s : string) :
  longest_first p -> ∀ m, re_search p s = Some m -> first_match p s m.
Proof.
  intros Hp. induction s as [|c s IH]; intros m; simpl.
  - destruct (re_match p EmptyString) as [m0|] eqn:Hm; [|done]. intros [= <-].
    apply re_match_sound in Hm as Hs. destruct Hs as [Hmm [rest Hrest]].
    exists EmptyString, rest. split; [done|]. split; [done|].
    intros [|x pre'] m' post' Heq Hm'; [|simpl; lia].
    rewrite sapp_nil_l in Heq. right. split; [done|].
    exact (Hp _ _ m' post' Hm Heq Hm').
  - destruct (re_match p (String c s)) as [m0|] eqn:Hm.
    + intros [= <-]. apply re_match_sound in Hm as Hs.
      destruct Hs as [Hmm [rest Hrest]].
      exists EmptyString, rest. split; [done|]. split; [done|].
      intros [|x pre'] m' post' Heq Hm'; [|simpl; lia].
      rewrite sapp_nil_l in Heq. right. split; [done|].
    exact (Hp _ _ m' post' Hm Heq Hm').
    + intros (pre & post & -> & Hmm & Hfirst)%IH.
      exists (String c pre), post. split; [done|]. split; [done|].
      intros [|c' pre'] m' post' Heq Hm'.
      * rewrite sapp_nil_l in Heq.
        destruct (re_match_complete p m' post' Hm') as [x Hx].
        rewrite <- Heq in Hx. congruence.
      * rewrite sapp_cons in Heq. injection Heq as <- Heq.
        destruct (Hfirst pre' m' post' Heq Hm') as [?|[? ?]]; simpl; [left|right]; lia.
Qed.

Lemma first_match_unique (p : regex) (s m1 m2 : string) :
  first_match p s m1 -> first_match p s m2 -> m1 = m2.
Proof.
  intros (pre1 & post1 & H1 & Hm1 & Hf1) (pre2 & post2 & H2 & Hm2 & Hf2).
  pose proof (Hf1 pre2 m2 post2 H2 Hm2) as Ha.
  pose proof (Hf2 pre1 m1 post1 H1 Hm1) as Hb.
  assert (Hpre : String.length pre1 = String.length pre2) by lia.
  assert (Hlen : String.length m1 = String.length m2) by lia.
  rewrite H1 in H2. apply sapp_eq_length in H2 as [_ H2]; [|done].
  by apply sapp_eq_length in H2 as [? _].
Qed.

Lemma first_match_is_match (p : regex) (s m : string) :
  first_match p s m -> substring_of m s ∧ Matches p m.
Proof. intros (pre & post & Hs & Hm & _). split; [by exists pre, post | done]. Qed.

Lemma email_match_nonempty (m : string) : Matches EMAIL_RE m -> m ≠ EmptyString.
Proof.
  intros Hm. inversion Hm as [| |cls min p u v Hu Hlen Hv]; subst.
  destruct u as [|c u]; [simpl in Hlen; lia | done].
Qed.

Lemma or_na_match (m : string) : Matches EMAIL_RE m -> or_na (Some m) = m.
Proof. intros Hm%email_match_nonempty. by destruct m. Qed.

Lemma email_field_of_paper paper_id title authors affs email :
  assoc "Corresponding Author Email" (make_paper paper_id title authors affs email)
  = Some (Some (or_na email)).
Proof. reflexivity. Qed.

Lemma visit_article_ok `{Library} (papers papers' : list Paper) (article : Element) :
  visit_article papers article = Ok papers' ->
  ∃ pmid authors company_affiliations,
    find_desc "PMID" article = Some pmid
    ∧ extract_authors_and_affiliations article
      = Ok (authors, company_affiliations, re_search EMAIL_RE (ET_tostring article))
    ∧ papers' = papers ++
        [make_paper (text pmid)
           (match find_desc "ArticleTitle" article with
            | Some title_elem => text title_elem
            | None => Some "N/A"
            end)
           authors company_affiliations
           (re_search EMAIL_RE (ET_tostring article))].
Proof.
  unfold visit_article.
  destruct (find_desc "PMID" article) as [pmid|]; [|done]. simpl.
  destruct (extract_authors_and_affiliations article) as [[[a f] e]|] eqn:Hx; [|done].
  simpl. intros [= <-]. apply extract_ok in Hx as Hx'. destruct Hx' as [_ ->].
  by exists pmid, a, f.
Qed.

(** C5. The e-mail field of an article's record is the first match of the
    e-mail pattern in the serialized text of the whole article, wherever in
    the article it stands: the match that starts leftmost (and is the
    longest one starting there).  Such a match exists as soon as some part
    of the text matches; when none does, the field reads [N/A]. *)
Theorem email_is_first_match_in_record `{Library}
    (papers papers' : list Paper) (article : Element) :
  visit_article papers article = Ok papers' ->
  ∃ paper, papers' = papers ++ [paper]
    ∧ (∀ m, first_match EMAIL_RE (ET_tostring article) m ->
         assoc "Corresponding Author Email" paper = Some (Some m))
    ∧ ((∃ m, substring_of m (ET_tostring article) ∧ Matches EMAIL_RE m) ->
       ∃ m, first_match EMAIL_RE (ET_tostring article) m)
    ∧ ((∀ m, substring_of m (ET_tostring article) -> ¬ Matches EMAIL_RE m) ->
       assoc "Corresponding Author Email" paper = Some (Some "N/A")).
Proof.
  intros (pmid & authors & affs & _ & _ & ->)%visit_article_ok.
  eexists. split; [done|].
  assert (Hfound : (∃ m, substring_of m (ET_tostring article) ∧ Matches EMAIL_RE m) ->
                   ∃ m0, re_search EMAIL_RE (ET_tostring article) = Some m0
                         ∧ first_match EMAIL_RE (ET_tostring article) m0).
  { intros (m & Hsub & Hm).
    destruct (re_search EMAIL_RE (ET_tostring article)) as [m0|] eqn:Hs.
    - exists m0. split; [done|]. by apply re_search_first, Hs; apply email_longest_first.
    - exfalso. by apply (proj1 (re_search_none _ _) Hs m). }
  split; [|split].
  - intros m Hfirst. destruct (first_match_is_match _ _ _ Hfirst) as [Hsub Hm].
    destruct Hfound as (m0 & Hs & Hfirst0); [by exists m|].
    rewrite (first_match_unique _ _ _ _ Hfirst Hfirst0).
    destruct (first_match_is_match _ _ _ Hfirst0) as [_ Hm0].
    by rewrite email_field_of_paper, Hs, (or_na_match m0 Hm0).
  - intros Hex. destruct (Hfound Hex) as (m0 & _ & Hfirst0). by exists m0.
  - intros Hno%re_search_none. by rewrite email_field_of_paper, Hno.
Qed.

Lemma email_is_first_match_in_record_witness :
  ∃ paper,
    [make_paper (Some "444") (Some "N/A") [] [] (Some "a.b@lab.example.org")]
    = [] ++ [paper]
    ∧ (∀ m, first_match EMAIL_RE (@ET_tostring demo_lib article_mail) m ->
         assoc "Corresponding Author Email" paper = Some (Some m))
    ∧ ((∃ m, substring_of m (@ET_tostring demo_lib article_mail) ∧ Matches EMAIL_RE m) ->
       ∃ m, first_match EMAIL_RE (@ET_tostring demo_lib article_mail) m)
    ∧ ((∀ m, substring_of m (@ET_tostring demo_lib article_mail) -> ¬ Matches EMAIL_RE m) ->
       assoc "Corresponding Author Email" paper = Some (Some "N/A")).
Proof.
  apply (@email_is_first_match_in_record demo_lib [] _ article_mail).
  vm_compute. reflexivity.
Defined.

(** The address is found in the abstract, far from any author. *)
Example email_found_outside_authors :
  @visit_article demo_lib [] article_mail
  = Ok [make_paper (Some "444") (Some "N/A") [] [] (Some "a.b@lab.example.org")].
Proof. vm_compute. reflexivity. Qed.

(** ** The pipeline (C3, C4, C9) *)

Section Pipeline.
Context `{Library}.

Lemma fetch_search_yields query n w paper_ids :
  search_yields query n w paper_ids ->
  fetch_papers_from_pubmed query n w =
  (if negb (truthy paper_ids) then
     print "No papers found for the query.";; mret []
   else
     ids ← lift (str_items paper_ids);
     response ← http_get (fetch_request ids);
     lift (raise_for_status response);;
     root ← lift (ET_fromstring (body_text response));
     lift (for_each visit_article (findall_desc "PubmedArticle" root) []))
    (after_requests w [search_request query n]).
Proof.
  intros (response & search_data & esr & Hget & Hst & Hjson & Hesr & Hids).
  unfold fetch_papers_from_pubmed, mbind, IO_bind, io_bind, http_get, lift,
    response_json. simpl.
  by rewrite Hget, Hst, Hjson, Hesr, Hids.
Qed.

Lemma main_raises query file w w' e :
  fetch_papers_from_pubmed query 5 w = (w', Raise e) ->
  main query file w = (w', Raise e).
Proof. intros Hf. unfold main, mbind, IO_bind, io_bind. by rewrite Hf. Qed.
End Pipeline.

(** C3. When the search goes through and yields an empty identifier list
    (or any other falsy value), the pipeline sends no second request and
    returns the empty list without raising; [main] then prints its
    message and ends normally, and the files are what they were. *)
Theorem empty_search_short_circuits `{Library} (query : string)
    (file : option string) (w : World) (paper_ids : json) :
  search_yields query 5 w paper_ids ->
  truthy paper_ids = false ->
  fetch_papers_from_pubmed query 5 w
  = (mkWorld (sent w ++ [search_request query 5])
       (stdout w ++ ["No papers found for the query."]) (files w), Ok [])
  ∧ main query file w
    = (mkWorld (sent w ++ [search_request query 5])
         (stdout w ++ ["No papers found for the query."; "No results found."])
         (files w), Ok tt).
Proof.
  intros Hs Hf. pose proof (fetch_search_yields _ _ _ _ Hs) as Hfetch.
  rewrite Hf in Hfetch. simpl in Hfetch.
  assert (Hfetch' : fetch_papers_from_pubmed query 5 w
    = (mkWorld (sent w ++ [search_request query 5])
         (stdout w ++ ["No papers found for the query."]) (files w), Ok [])).
  { rewrite Hfetch. reflexivity. }
  split; [done|].
  unfold main, mbind, IO_bind, io_bind. rewrite Hfetch'.
  unfold print. simpl. by rewrite <- app_assoc.
Qed.

Lemma empty_search_short_circuits_witness :
  @fetch_papers_from_pubmed lib_no_ids "cancer research" 5 world0
  = (mkWorld (sent world0 ++ [search_request "cancer research" 5])
       (stdout world0 ++ ["No papers found for the query."]) (files world0), Ok [])
  ∧ @main lib_no_ids "cancer research" (Some "out.csv") world0
    = (mkWorld (sent world0 ++ [search_request "cancer research" 5])
         (stdout world0 ++ ["No papers found for the query."; "No results found."])
         (files world0), Ok tt).
Proof.
  apply (@empty_search_short_circuits lib_no_ids "cancer research"
           (Some "out.csv") world0 (JArr [])).
  - exists (mkResponse 200 (Some (ids_body [])) EmptyString), (ids_body []),
      (JObj [("idlist", JArr [])]).
    repeat split; reflexivity.
  - reflexivity.
Defined.

Lemma raise_for_status_error (response : Response) :
  400 <= status_code response < 600 -> raise_for_status response = Raise HTTPError.
Proof.
  intros [Hlo Hhi]. unfold raise_for_status.
  apply Z.leb_le in Hlo. apply Z.ltb_lt in Hhi. by rewrite Hlo, Hhi.
Qed.

(** C4, as the code has it.  A 4xx or 5xx status on either request makes
    the pipeline raise at once: after an error status on the search only
    the search request has been sent (no retry, no fetch), after one on
    the fetch only those two requests; nothing is returned, printed or
    written, and [main] ends with the same error. *)
Theorem http_error_status_aborts `{Library} (query : string)
    (file : option string) (w : World) :
  (∀ response,
     requests_get (sent w) (search_request query 5) = Ok response ->
     400 <= status_code response < 600 ->
     fetch_papers_from_pubmed query 5 w
     = (after_requests w [search_request query 5], Raise HTTPError)
     ∧ main query file w
       = (after_requests w [search_request query 5], Raise HTTPError))
  ∧ (∀ paper_ids ids response,
       search_yields query 5 w paper_ids ->
       truthy paper_ids = true ->
       str_items paper_ids = Ok ids ->
       requests_get (sent w ++ [search_request query 5]) (fetch_request ids)
       = Ok response ->
       400 <= status_code response < 600 ->
       fetch_papers_from_pubmed query 5 w
       = (after_requests w [search_request query 5; fetch_request ids],
          Raise HTTPError)
       ∧ main query file w
         = (after_requests w [search_request query 5; fetch_request ids],
            Raise HTTPError)).
Proof.
  split.
  - intros response Hget Hst%raise_for_status_error.
    assert (Hf : fetch_papers_from_pubmed query 5 w
                 = (after_requests w [search_request query 5], Raise HTTPError)).
    { unfold fetch_papers_from_pubmed, mbind, IO_bind, io_bind, http_get, lift.
      simpl. by rewrite Hget, Hst. }
    split; [done | by apply main_raises].
  - intros paper_ids ids response Hs Ht Hids Hget Hst%raise_for_status_error.
    assert (Hf : fetch_papers_from_pubmed query 5 w
                 = (after_requests w [search_request query 5; fetch_request ids],
                    Raise HTTPError)).
    { rewrite (fetch_search_yields _ _ _ _ Hs), Ht. simpl.
      unfold mbind, IO_bind, io_bind, http_get, lift, after_requests. simpl.
      rewrite Hids, Hget, Hst. by rewrite <- app_assoc. }
    split; [done | by apply main_raises].
Qed.

Lemma http_error_status_aborts_witness :
  (@fetch_papers_from_pubmed lib_search_500 "cancer research" 5 world0
   = (after_requests world0 [search_request "cancer research" 5], Raise HTTPError)
   ∧ @main lib_search_500 "cancer research" (Some "out.csv") world0
     = (after_requests world0 [search_request "cancer research" 5], Raise HTTPError))
  ∧ (@fetch_papers_from_pubmed lib_fetch_404 "cancer research" 5 world0
     = (after_requests world0
          [search_request "cancer research" 5; fetch_request ["111"; "222"]],
        Raise HTTPError)
     ∧ @main lib_fetch_404 "cancer research" (Some "out.csv") world0
       = (after_requests world0
            [search_request "cancer research" 5; fetch_request ["111"; "222"]],
          Raise HTTPError)).
Proof.
  split.
  - apply (proj1 (@http_error_status_aborts lib_search_500 "cancer research"
                    (Some "out.csv") world0)
             (mkResponse 500 None "Internal Server Error")).
    + reflexivity.
    + simpl. lia.
  - apply (proj2 (@http_error_status_aborts lib_fetch_404 "cancer research"
                    (Some "out.csv") world0)
             (JArr [JStr "111"; JStr "222"]) ["111"; "222"]
             (mkResponse 404 None "Not Found")).
    + exists (mkResponse 200 (Some (ids_body ["111"; "222"])) EmptyString),
        (ids_body ["111"; "222"]),
        (JObj [("idlist", JArr [JStr "111"; JStr "222"])]).
      repeat split; reflexivity.
    + reflexivity.
    + reflexivity.
    + reflexivity.
    + simpl. lia.
Defined.

(** C4 as stated fails: a status outside 200..299 that is no 4xx or 5xx
    does not stop the run.  With status 300 on the search the pipeline
    ends normally; with status 300 on the fetch the records are extracted
    and the file is written. *)
Lemma status_300_does_not_abort :
  ¬ is_2xx 300
  ∧ @requests_get lib_search_300 [] (search_request "cancer research" 5)
    = Ok (mkResponse 300 (Some (ids_body [])) EmptyString)
  ∧ @main lib_search_300 "cancer research" (Some "out.csv") world0
    = (mkWorld [search_request "cancer research" 5]
         ["No papers found for the query."; "No results found."] ∅, Ok tt)
  ∧ @requests_get lib_fetch_300 [search_request "cancer research" 5]
      (fetch_request ["111"; "222"])
    = Ok (mkResponse 300 None "<PubmedArticleSet>...</PubmedArticleSet>")
  ∧ (@main lib_fetch_300 "cancer research" (Some "out.csv") world0).2 = Ok tt
  ∧ is_Some (files (@main lib_fetch_300 "cancer research" (Some "out.csv") world0).1
             !! "out.csv").
Proof.
  split; [unfold is_2xx; lia|].
  repeat split; try (vm_compute; reflexivity).
  vm_compute. eexists. reflexivity.
Qed.

Lemma for_each_app {A S} (body : S -> A -> pyresult S) (l1 l2 : list A) (s : S) :
  for_each body (l1 ++ l2) s = s' ← for_each body l1 s; for_each body l2 s'.
Proof.
  revert s. induction l1 as [|x l1 IH]; intros s; simpl; [done|].
  destruct (body s x) as [s1|e]; simpl; [apply IH | done].
Qed.

Lemma visit_article_missing_pmid `{Library} papers (article : Element) :
  find_desc "PMID" article = None ->
  visit_article papers article = Raise AttributeError.
Proof. intros Hp. unfold visit_article. by rewrite Hp. Qed.

(** C9. An article without a PMID element makes the parse stage raise:
    once the two requests have gone through and the XML has parsed, the
    pipeline ends with an exception instead of a list of records, [main]
    ends with the same exception, and nothing is printed or written.  The
    exception is the [AttributeError] of that article unless an earlier
    article has already raised. *)
Theorem missing_pmid_aborts_batch `{Library} (query : string)
    (file : option string) (w : World) (paper_ids : json) (ids : list string)
    (response : Response) (root article : Element) (before after : list Element) :
  search_yields query 5 w paper_ids ->
  truthy paper_ids = true ->
  str_items paper_ids = Ok ids ->
  requests_get (sent w ++ [search_request query 5]) (fetch_request ids) = Ok response ->
  raise_for_status response = Ok tt ->
  ET_fromstring (body_text response) = Ok root ->
  findall_desc "PubmedArticle" root = before ++ article :: after ->
  find_desc "PMID" article = None ->
  ∃ e,
    fetch_papers_from_pubmed query 5 w
    = (after_requests w [search_request query 5; fetch_request ids], Raise e)
    ∧ main query file w
      = (after_requests w [search_request query 5; fetch_request ids], Raise e)
    ∧ (is_raise (for_each visit_article before []) = false -> e = AttributeError).
Proof.
  intros Hs Ht Hids Hget Hst Hroot Hsplit Hpmid.
  assert (Hloop : ∃ e, for_each visit_article (findall_desc "PubmedArticle" root) []
                       = Raise e
                    ∧ (is_raise (for_each visit_article before []) = false ->
                       e = AttributeError)).
  { rewrite Hsplit, for_each_app.
    destruct (for_each visit_article before []) as [papers|e]; simpl.
    - rewrite (visit_article_missing_pmid _ _ Hpmid). simpl. by exists AttributeError.
    - exists e. split; [done|]. discriminate. }
  destruct Hloop as (e & Hloop & He). exists e.
  assert (Hf : fetch_papers_from_pubmed query 5 w
               = (after_requests w [search_request query 5; fetch_request ids],
                  Raise e)).
  { rewrite (fetch_search_yields _ _ _ _ Hs), Ht. simpl.
    unfold mbind, IO_bind, io_bind, http_get, lift, after_requests. simpl.
    rewrite Hids, Hget, Hst, Hroot, Hloop. by rewrite <- app_assoc. }
  split; [done|]. split; [by apply main_raises | done].
Qed.

Lemma missing_pmid_aborts_batch_witness :
  ∃ e,
    @fetch_papers_from_pubmed lib_no_pmid "cancer research" 5 world0
    = (after_requests world0
         [search_request "cancer research" 5; fetch_request ["111"; "555"]], Raise e)
    ∧ @main lib_no_pmid "cancer research" (Some "out.csv") world0
      = (after_requests world0
           [search_request "cancer research" 5; fetch_request ["111"; "555"]], Raise e)
    ∧ (is_raise (for_each (@visit_article lib_no_pmid) [article_111] []) = false ->
       e = AttributeError).
Proof.
  apply (@missing_pmid_aborts_batch lib_no_pmid "cancer research" (Some "out.csv")
           world0 (JArr [JStr "111"; JStr "555"]) ["111"; "555"]
           (mkResponse 200 None "<PubmedArticleSet>...</PubmedArticleSet>")
           (node "PubmedArticleSet" [article_111; article_no_pmid; article_222])
           article_no_pmid [article_111] [article_222]).
  - exists (mkResponse 200 (Some (ids_body ["111"; "555"])) EmptyString),
      (ids_body ["111"; "555"]),
      (JObj [("idlist", JArr [JStr "111"; JStr "555"])]).
    repeat split; reflexivity.
  - reflexivity.
  - reflexivity.
  - reflexivity.
  - reflexivity.
  - reflexivity.
  - vm_compute. reflexivity.
  - vm_compute. reflexivity.
Defined.

(** ** The CSV file (C8) *)

Lemma csv_special_false (c : ascii) :
  csv_special c = false -> c ≠ ","%char ∧ c ≠ dquote ∧ c ≠ CR ∧ c ≠ LF.
Proof.
  unfold csv_special. rewrite !orb_false_iff, !bool_decide_eq_false. tauto.
Qed.

Lemma csv_run_in_field (f : string) :
  ∀ fld row t, str_exists csv_special f = false ->
    csv_run (mkReader IN_FIELD fld row) (f +:+ t)
    = csv_run (mkReader IN_FIELD (fld +:+ f) row) t.
Proof.
  induction f as [|c f IH]; intros fld row t Hf.
  - by rewrite sapp_nil_l, sapp_nil_r.
  - simpl in Hf. apply orb_false_iff in Hf as [Hc Hf].
    apply csv_special_false in Hc as (H1 & H2 & H3 & H4).
    rewrite sapp_cons. simpl. unfold csv_step, end_or_add. simpl.
    rewrite !decide_False by done. simpl.
    rewrite IH by done. by rewrite sapp_assoc.
Qed.

Lemma csv_run_in_quoted (f : string) :
  ∀ fld row t,
    csv_run (mkReader IN_QUOTED_FIELD fld row) (csv_escape f +:+ t)
    = csv_run (mkReader IN_QUOTED_FIELD (fld +:+ f) row) t.
Proof.
  induction f as [|c f IH]; intros fld row t.
  - by rewrite sapp_nil_l, sapp_nil_r.
  - simpl. destruct (decide (c = dquote)) as [->|Hc].
    + rewrite !sapp_cons. simpl. unfold csv_step. simpl.
      rewrite IH. by rewrite sapp_assoc.
    + rewrite sapp_cons. simpl. unfold csv_step. simpl.
      rewrite decide_False by done. simpl. rewrite IH. by rewrite sapp_assoc.
Qed.

Lemma end_or_add_delimiter fld row d :
  d = ","%char ∨ d = CR ->
  end_or_add fld row d = (after_field d (row ++ [fld]), []).
Proof. intros [-> | ->]; reflexivity. Qed.

Lemma start_field_delimiter row d :
  d = ","%char ∨ d = CR ->
  start_field row d = (after_field d (row ++ [EmptyString]), []).
Proof. intros [-> | ->]; reflexivity. Qed.

Lemma csv_field_read (f : string) (d : ascii) row t :
  d = ","%char ∨ d = CR ->
  csv_run (mkReader START_FIELD EmptyString row) (csv_field f +:+ String d t)
  = csv_run (after_field d (row ++ [f])) t.
Proof.
  intros Hd. unfold csv_field. destruct (str_exists csv_special f) eqn:Hf.
  - rewrite sapp_cons, sapp_assoc. simpl csv_run at 1.
    rewrite csv_run_in_quoted, sapp_nil_l, !sapp_cons, sapp_nil_l.
    simpl csv_run at 1. unfold csv_step. simpl r_state. cbv iota.
    destruct (decide (d = dquote)) as [->|Hq]; [by destruct Hd|].
    simpl r_field. simpl r_row.
    by rewrite (end_or_add_delimiter _ _ _ Hd).
  - destruct f as [|c f].
    + rewrite sapp_nil_l. simpl csv_run at 1. unfold csv_step. simpl r_state.
      cbv iota. simpl r_row.
      by rewrite (start_field_delimiter _ _ Hd).
    + simpl in Hf. apply orb_false_iff in Hf as [Hc Hf].
      apply csv_special_false in Hc as (H1 & H2 & H3 & H4).
      rewrite sapp_cons. simpl csv_run at 1. unfold csv_step, start_field.
      simpl r_state. cbv iota. simpl r_row.
      rewrite !decide_False by done.
      rewrite app_nil_l, csv_run_in_field by done. rewrite sapp_cons, sapp_nil_l.
      simpl csv_run at 1. unfold csv_step. simpl r_state. cbv iota.
      simpl r_field. simpl r_row.
      by rewrite (end_or_add_delimiter _ _ _ Hd).
Qed.

Lemma first_char_of_field (f : string) (d : ascii) t :
  f ≠ EmptyString ∨ d = ","%char ->
  ∃ c t', csv_field f +:+ String d t = String c t' ∧ c ≠ CR ∧ c ≠ LF.
Proof.
  intros Hfd. unfold csv_field. destruct (str_exists csv_special f) eqn:Hf.
  - rewrite sapp_cons. by eexists _, _.
  - destruct f as [|c f].
    + destruct Hfd as [?| ->]; [done|]. rewrite sapp_nil_l. by eexists _, _.
    + simpl in Hf. apply orb_false_iff in Hf as [Hc Hf].
      apply csv_special_false in Hc as (H1 & H2 & H3 & H4).
      rewrite sapp_cons. by eexists _, _.
Qed.

Lemma start_record_as_field (c : ascii) t :
  c ≠ CR -> c ≠ LF ->
  csv_run reader0 (String c t) = csv_run (mkReader START_FIELD EmptyString []) (String c t).
Proof.
  intros H1 H2. simpl. unfold csv_step, start_record. simpl.
  by rewrite !decide_False by done.
Qed.

Lemma join_cons2 sep (x y : string) (l : list string) :
  join sep (x :: y :: l) = x +:+ sep +:+ join sep (y :: l).
Proof. reflexivity. Qed.

Lemma csv_fields_read (fields : list string) :
  ∀ row t, fields ≠ [] ->
    csv_run (mkReader START_FIELD EmptyString row)
      ((join "," (csv_field <$> fields) +:+ CRLF) +:+ t)
    = (row ++ fields) :: csv_run reader0 t.
Proof.
  induction fields as [|f [|g rest] IH]; intros row t Hne; [done| |].
  - simpl. unfold CRLF. rewrite sapp_assoc, !sapp_cons, sapp_nil_l.
    rewrite csv_field_read by (by right). reflexivity.
  - rewrite !fmap_cons, join_cons2, <- fmap_cons, !sapp_assoc, sapp_cons, sapp_nil_l.
    rewrite csv_field_read by (by left).
    unfold after_field. rewrite decide_True by done.
    rewrite <- sapp_assoc, IH by done. by rewrite <- app_assoc.
Qed.

(** Reading what [writerow] wrote gives the row back, whatever the fields
    hold: commas, quotes and line breaks included. *)
Lemma csv_row_read (row : list string) t :
  csv_run reader0 (csv_row row +:+ t) = row :: csv_run reader0 t.
Proof.
  destruct row as [|f rest]; [reflexivity|].
  destruct (decide (f = EmptyString ∧ rest = [])) as [[-> ->]|Hne]; [reflexivity|].
  assert (Hrow : csv_row (f :: rest) = join "," (csv_field <$> f :: rest) +:+ CRLF).
  { unfold csv_row. destruct f; [|done]. destruct rest; [|done]. naive_solver. }
  rewrite Hrow.
  assert (Hc : ∃ c t', (join "," (csv_field <$> f :: rest) +:+ CRLF) +:+ t = String c t'
                       ∧ c ≠ CR ∧ c ≠ LF).
  { destruct rest as [|g rest].
    - simpl. unfold CRLF. rewrite sapp_assoc, sapp_cons.
      apply first_char_of_field. left. naive_solver.
    - rewrite !fmap_cons, join_cons2, !sapp_assoc, sapp_cons, sapp_nil_l.
      apply first_char_of_field. by right. }
  destruct Hc as (c & t' & Heq & H1 & H2).
  pose proof (csv_fields_read (f :: rest) [] t ltac:(done)) as Hread.
  rewrite Heq in *. by rewrite start_record_as_field.
Qed.

Lemma csv_rows_read (rows : list (list string)) :
  csv_reader (String.concat EmptyString (csv_row <$> rows)) = rows.
Proof.
  unfold csv_reader.
  assert (Hgen : ∀ t, csv_run reader0 (String.concat EmptyString (csv_row <$> rows) +:+ t)
                      = rows ++ csv_run reader0 t).
  { induction rows as [|r [|r' rows] IH]; intros t; [done| |].
    - simpl. by rewrite csv_row_read.
    - rewrite !fmap_cons. change (String.concat EmptyString (csv_row r :: csv_row r' :: (csv_row <$> rows)))
        with (csv_row r +:+ EmptyString +:+ String.concat EmptyString (csv_row <$> r' :: rows)).
      rewrite sapp_nil_l, sapp_assoc, csv_row_read, IH. done. }
  specialize (Hgen EmptyString). rewrite sapp_nil_r in Hgen.
  rewrite Hgen. simpl. by rewrite app_nil_r.
Qed.

Lemma row_of_paper paper_id title authors affs email :
  row_of (make_paper paper_id title authors affs email)
  = [csv_cell paper_id; csv_cell title; join_or_na authors; join_or_na affs;
     or_na email].
Proof. reflexivity. Qed.

Lemma dict_to_list_record (paper : Paper) :
  paper_record paper -> dict_to_list FIELDNAMES paper = Ok (row_of paper).
Proof. intros (pid & title & authors & affs & email & ->). reflexivity. Qed.

Lemma concat_cons (x : string) (xs : list string) :
  String.concat EmptyString (x :: xs) = x +:+ String.concat EmptyString xs.
Proof. destruct xs; simpl; [by rewrite sapp_nil_r | done]. Qed.

Lemma writerow_ok (file : string) (paper : Paper) (w : World) content :
  paper_record paper ->
  files w !! file = Some content ->
  writerow file paper w
  = (mkWorld (sent w) (stdout w)
       (<[file := content +:+ csv_row (row_of paper)]> (files w)), Ok tt).
Proof.
  intros Hp Hfile. unfold writerow, mbind, IO_bind, io_bind, lift, file_write.
  by rewrite (dict_to_list_record _ Hp), Hfile.
Qed.

Lemma writerows_ok (file : string) (data : list Paper) :
  ∀ w content, Forall paper_record data ->
    files w !! file = Some content ->
    io_for_each (writerow file) data w
    = (mkWorld (sent w) (stdout w)
         (<[file := content +:+
              String.concat EmptyString (csv_row <$> (row_of <$> data))]> (files w)),
       Ok tt).
Proof.
  induction data as [|paper data IH]; intros w content Hdata Hfile.
  - simpl. rewrite sapp_nil_r, insert_id by done. by destruct w.
  - inversion Hdata as [|? ? Hp Hrest]; subst.
    simpl io_for_each. unfold mbind, IO_bind, io_bind.
    rewrite (writerow_ok _ _ _ _ Hp Hfile).
    rewrite (IH _ (content +:+ csv_row (row_of paper))); [|done|].
    + cbn [sent stdout files].
      rewrite insert_insert_eq, !fmap_cons, concat_cons, sapp_assoc. done.
    + cbn [files]. apply lookup_insert_eq.
Qed.

Lemma save_to_csv_ok `{Library} (data : list Paper) (filename file : string)
    (w : World) :
  builtin_open filename = Ok file ->
  Forall paper_record data ->
  save_to_csv data filename w
  = (mkWorld (sent w) (stdout w ++ ["Results saved to " +:+ filename])
       (<[file := String.concat EmptyString
                    (csv_row <$> (FIELDNAMES :: (row_of <$> data)))]> (files w)),
     Ok tt).
Proof.
  intros Hopen Hdata. unfold save_to_csv, mbind, IO_bind, io_bind.
  unfold open_w at 1. rewrite Hopen. unfold file_write at 1. cbn [sent stdout files].
  rewrite (writerows_ok file data _ (csv_row FIELDNAMES) Hdata).
  - unfold print. cbn [sent stdout files].
    rewrite !insert_insert_eq, fmap_cons, concat_cons. done.
  - cbn [files]. by rewrite !lookup_insert_eq.
Qed.

(** A name that cannot be opened: the error of [open] ends the sink
    before anything is written or printed. *)
Lemma save_to_csv_open_fails `{Library} (data : list Paper) (filename : string)
    (w : World) e :
  builtin_open filename = Raise e ->
  save_to_csv data filename w = (w, Raise e).
Proof.
  intros Hopen. unfold save_to_csv, mbind, IO_bind, io_bind, open_w.
  by rewrite Hopen.
Qed.

Lemma paper_record_values (data : list Paper) :
  Forall paper_record data ->
  ∃ values, data = paper_from <$> values.
Proof.
  induction 1 as [|paper data (pid & title & authors & affs & email & ->) _ [values ->]].
  - by exists [].
  - by exists ((pid, title, authors, affs, email) :: values).
Qed.




Example csv_of_demo_papers :
  csv_reader (default EmptyString
                (files (@save_to_csv demo_lib demo_papers "out.csv" world0).1
                 !! "out.csv"))
  = [FIELDNAMES;
     ["111"; quoted_title; "Jane Doe, Unknown";
      "Acme Pharma Inc., Zed Biotech"; "N/A"];
     ["222"; EmptyString; "N/A"; "N/A"; "a.b@lab.example.org"]].
Proof. vm_compute. reflexivity. Qed.

(** ** The whole run *)

Lemma visit_articles_records `{Library} (l : list Element) :
  ∀ acc papers, Forall paper_record acc ->
    for_each visit_article l acc = Ok papers -> Forall paper_record papers.
Proof.
  induction l as [|article l IH]; intros acc papers Hacc; simpl.
  - by intros [= <-].
  - destruct (visit_article acc article) as [acc'|e] eqn:Hv; [|done].
    apply IH. apply visit_article_ok in Hv as (pmid & a & f & _ & _ & ->).
    apply Forall_app. split; [done|]. repeat constructor. by eexists _, _, _, _, _.
Qed.

(** Every result set of the pipeline is made of such records. *)
Lemma pipeline_returns_records `{Library} query n (w w' : World) papers :
  fetch_papers_from_pubmed query n w = (w', Ok papers) ->
  Forall paper_record papers.
Proof.
  unfold fetch_papers_from_pubmed, mbind, IO_bind, io_bind, http_get, lift, print,
    mret, IO_ret, io_ret.
  cbn [sent stdout files].
  repeat (match goal with
          | |- context [match ?x with _ => _ end] => destruct x eqn:?
          | |- context [if ?x then _ else _] => destruct x eqn:?
          end; try discriminate).
  - by intros [= _ <-].
  - intros [= _ Hloop]. by apply visit_articles_records in Hloop.
Qed.

Lemma main_saves_results `{Library} query c name (w w1 : World) paper papers :
  fetch_papers_from_pubmed query 5 w = (w1, Ok (paper :: papers)) ->
  main query (Some (String c name)) w = save_to_csv (paper :: papers) (String c name) w1.
Proof. intros Hf. unfold main, mbind, IO_bind, io_bind. by rewrite Hf. Qed.

(** The scenario of the specification, run from the command line to the
    rows of the file. *)
Example scenario_two_articles :
  @fetch_papers_from_pubmed demo_lib "cancer research" 5 world0
  = (after_requests world0
       [search_request "cancer research" 5; fetch_request ["111"; "222"]],
     Ok [make_paper (Some "111") (Some "On quotes, commas") ["Jane Doe"]
           ["Acme Pharma Inc., jane.doe@acme.com"] (Some "jane.doe@acme.com");
         make_paper (Some "222") (Some "N/A") [] [] None])
  ∧ csv_reader (default EmptyString
       (files (@main demo_lib "cancer research" (Some "out.csv") world0).1
        !! "out.csv"))
    = [FIELDNAMES;
       ["111"; "On quotes, commas"; "Jane Doe";
        "Acme Pharma Inc., jane.doe@acme.com"; "jane.doe@acme.com"];
       ["222"; "N/A"; "N/A"; "N/A"; "N/A"]].
Proof. split; vm_compute; reflexivity. Qed.

(** * Further properties *)

(** ** The extractor and the parse stage as functions of the tree *)

Lemma visit_author_ready acc (author : Element) :
  author_ready author = true ->
  visit_author acc author
  = Ok (match affiliation_of author with
        | Some affiliation =>
            if is_company affiliation
            then (acc.1 ++ [author_name author], acc.2 ++ [affiliation])
            else acc
        | None => acc
        end).
Proof.
  unfold author_ready, visit_author, affiliation_of.
  destruct (find_desc "Affiliation" author) as [elem|]; simpl; [|done].
  destruct (text elem) as [affiliation|]; simpl; [|done].
  intros _. by destruct (is_company affiliation).
Qed.

Lemma visit_author_not_ready acc (author : Element) :
  author_ready author = false -> visit_author acc author = Raise TypeError.
Proof.
  unfold author_ready, visit_author.
  destruct (find_desc "Affiliation" author) as [elem|]; [|done].
  by destruct (text elem).
Qed.

Lemma visit_authors_ready (l : list Element) :
  ∀ acc, forallb author_ready l = true ->
    for_each visit_author l acc
    = Ok (acc.1 ++ (author_name <$> List.filter names_company l),
          acc.2 ++ omap affiliation_of (List.filter names_company l)).
Proof.
  induction l as [|a l IH]; intros [authors affs] Hl; simpl.
  - by rewrite !app_nil_r.
  - simpl in Hl. apply andb_true_iff in Hl as [Ha Hl].
    rewrite (visit_author_ready _ _ Ha). simpl. unfold names_company.
    destruct (affiliation_of a) as [affiliation|] eqn:Haff; [|by rewrite (IH _ Hl)].
    destruct (is_company affiliation); rewrite (IH _ Hl); simpl; [|done].
    by rewrite Haff, <- !app_assoc.
Qed.

Lemma visit_authors_not_ready (l : list Element) :
  ∀ acc, forallb author_ready l = false ->
    for_each visit_author l acc = Raise TypeError.
Proof.
  induction l as [|a l IH]; intros acc Hl; simpl in *; [done|].
  destruct (author_ready a) eqn:Ha.
  - rewrite (visit_author_ready _ _ Ha). simpl. by apply IH.
  - by rewrite (visit_author_not_ready _ _ Ha).
Qed.

Lemma extract_ready `{Library} (article : Element) :
  forallb author_ready (findall_desc "Author" article) = true ->
  extract_authors_and_affiliations article
  = Ok (author_name <$> company_authors article,
        omap affiliation_of (company_authors article),
        re_search EMAIL_RE (ET_tostring article)).
Proof.
  intros Hr. unfold extract_authors_and_affiliations.
  by rewrite (visit_authors_ready _ _ Hr).
Qed.

Lemma extract_not_ready `{Library} (article : Element) :
  forallb author_ready (findall_desc "Author" article) = false ->
  extract_authors_and_affiliations article = Raise TypeError.
Proof.
  intros Hr. unfold extract_authors_and_affiliations.
  by rewrite (visit_authors_not_ready _ _ Hr).
Qed.

(** X1. The extractor as a function of the article.  It raises a
    [TypeError] exactly when some author's first affiliation element has
    no text; otherwise it returns the display names and the affiliation
    texts of the authors whose affiliation names a company, in document
    order, with the result of the e-mail search. *)
Theorem extract_as_filter `{Library} (article : Element) :
  extract_authors_and_affiliations article
  = if forallb author_ready (findall_desc "Author" article)
    then Ok (author_name <$> company_authors article,
             omap affiliation_of (company_authors article),
             re_search EMAIL_RE (ET_tostring article))
    else Raise TypeError.
Proof.
  destruct (forallb author_ready (findall_desc "Author" article)) eqn:Hr.
  - by apply extract_ready.
  - by apply extract_not_ready.
Qed.

Lemma visit_article_ready `{Library} (papers : list Paper) (article : Element) :
  article_ready article = true ->
  visit_article papers article = Ok (papers ++ [paper_of article]).
Proof.
  unfold article_ready. intros [Hp Ha]%andb_true_iff.
  apply bool_decide_eq_true in Hp as [pmid Hp].
  unfold visit_article, paper_of, title_of.
  rewrite Hp, (extract_ready _ Ha). done.
Qed.

Lemma visit_article_not_ready `{Library} (papers : list Paper) (article : Element) :
  article_ready article = false ->
  visit_article papers article
  = Raise (if bool_decide (is_Some (find_desc "PMID" article))
           then TypeError else AttributeError).
Proof.
  unfold article_ready, visit_article. intros Hr.
  destruct (find_desc "PMID" article) as [pmid|] eqn:Hp; [|done].
  rewrite bool_decide_eq_true_2 in * by done. simpl in Hr.
  by rewrite (extract_not_ready _ Hr).
Qed.

Lemma visit_articles_ready `{Library} (l : list Element) :
  ∀ acc, forallb article_ready l = true ->
    for_each visit_article l acc = Ok (acc ++ (paper_of <$> l)).
Proof.
  induction l as [|a l IH]; intros acc Hl; simpl.
  - by rewrite app_nil_r.
  - simpl in Hl. apply andb_true_iff in Hl as [Ha Hl].
    rewrite (visit_article_ready _ _ Ha). simpl.
    by rewrite (IH _ Hl), <- app_assoc.
Qed.

Lemma visit_articles_not_ready `{Library} (l : list Element) :
  ∀ acc, forallb article_ready l = false ->
    is_raise (for_each visit_article l acc) = true.
Proof.
  induction l as [|a l IH]; intros acc Hl; simpl in *; [done|].
  destruct (article_ready a) eqn:Ha.
  - rewrite (visit_article_ready _ _ Ha). simpl. by apply IH.
  - by rewrite (visit_article_not_ready _ _ Ha).
Qed.

(** X2. The parse loop as a map.  It returns a list of records exactly
    when every article has a PMID element and no author with a textless
    affiliation element; the list then holds one record per article, in
    document order, each computed from its article alone. *)
Theorem parse_loop_as_map `{Library} (articles : list Element) (papers : list Paper) :
  for_each visit_article articles [] = Ok papers
  ↔ forallb article_ready articles = true ∧ papers = paper_of <$> articles.
Proof.
  split.
  - intros Hloop. destruct (forallb article_ready articles) eqn:Hr.
    + rewrite (visit_articles_ready _ _ Hr) in Hloop. by injection Hloop as <-.
    + pose proof (visit_articles_not_ready _ [] Hr) as Hraise.
      by rewrite Hloop in Hraise.
  - intros [Hr ->]. by rewrite (visit_articles_ready _ _ Hr).
Qed.

Lemma parse_loop_as_map_witness :
  for_each (@visit_article demo_lib) [article_111; article_222] []
  = Ok (@paper_of demo_lib <$> [article_111; article_222])
  ∧ is_raise (for_each (@visit_article demo_lib) [article_111; article_blank] []) = true.
Proof.
  split.
  - apply (@parse_loop_as_map demo_lib [article_111; article_222]). by split.
  - destruct (for_each (@visit_article demo_lib) [article_111; article_blank] [])
      as [papers|e] eqn:Hloop; [|done].
    apply (@parse_loop_as_map demo_lib [article_111; article_blank]) in Hloop
      as [Hready _].
    vm_compute in Hready. discriminate.
Defined.


(** ** What the pipeline and the entry point touch *)

(** Case analysis along every branch of the pipeline. *)
Ltac pipeline_cases :=
  unfold fetch_papers_from_pubmed, mbind, IO_bind, io_bind, http_get, lift, print,
    mret, IO_ret, io_ret;
  cbn [sent stdout files];
  repeat (match goal with
          | |- context [match ?x with _ => _ end] => destruct x eqn:?
          | |- context [if ?x then _ else _] => destruct x eqn:?
          end);
  cbn [fst snd sent stdout files].

(** X3. Whatever the server answers, the pipeline leaves the files alone,
    sends the search request first and at most one fetch request after
    it, and prints nothing except the no-papers message, which comes only
    with an empty result after the search request alone. *)
Theorem pipeline_footprint `{Library} (query : string) (max_results : Z) (w : World) :
  files (fetch_papers_from_pubmed query max_results w).1 = files w
  ∧ (sent (fetch_papers_from_pubmed query max_results w).1
     = sent w ++ [search_request query max_results]
     ∨ ∃ ids, sent (fetch_papers_from_pubmed query max_results w).1
              = sent w ++ [search_request query max_results; fetch_request ids])
  ∧ (stdout (fetch_papers_from_pubmed query max_results w).1 = stdout w
     ∨ (stdout (fetch_papers_from_pubmed query max_results w).1
        = stdout w ++ ["No papers found for the query."]
        ∧ (fetch_papers_from_pubmed query max_results w).2 = Ok []
        ∧ sent (fetch_papers_from_pubmed query max_results w).1
          = sent w ++ [search_request query max_results])).
Proof.
  pipeline_cases;
    (split; [done|]); split;
    try (by left); try (by right);
    right; eexists; by rewrite <- app_assoc.
Qed.









(** ** The CSV sink on any list of dicts *)

Lemma dict_to_list_known (rowdict : Paper) :
  dict_to_list FIELDNAMES rowdict
  = if known_keys rowdict then Ok (row_of rowdict) else Raise ValueError.
Proof. reflexivity. Qed.

Lemma writerow_known (file : string) (paper : Paper) (w : World) content :
  known_keys paper = true ->
  files w !! file = Some content ->
  writerow file paper w
  = (mkWorld (sent w) (stdout w)
       (<[file := content +:+ csv_row (row_of paper)]> (files w)), Ok tt).
Proof.
  intros Hp Hfile. unfold writerow, mbind, IO_bind, io_bind, lift, file_write.
  by rewrite dict_to_list_known, Hp, Hfile.
Qed.

Lemma writerow_unknown (file : string) (paper : Paper) (w : World) :
  known_keys paper = false -> writerow file paper w = (w, Raise ValueError).
Proof.
  intros Hp. unfold writerow, mbind, IO_bind, io_bind, lift.
  by rewrite dict_to_list_known, Hp.
Qed.

Lemma writerows_known (file : string) (data : list Paper) :
  ∀ w content, forallb known_keys data = true ->
    files w !! file = Some content ->
    io_for_each (writerow file) data w
    = (mkWorld (sent w) (stdout w)
         (<[file := content +:+ csv_text (row_of <$> data)]> (files w)), Ok tt).
Proof.
  unfold csv_text.
  induction data as [|paper data IH]; intros w content Hdata Hfile.
  - simpl. rewrite sapp_nil_r, insert_id by done. by destruct w.
  - simpl in Hdata. apply andb_true_iff in Hdata as [Hp Hdata].
    simpl io_for_each. unfold mbind, IO_bind, io_bind.
    rewrite (writerow_known _ _ _ _ Hp Hfile).
    rewrite (IH _ (content +:+ csv_row (row_of paper))); [|done|].
    + cbn [sent stdout files].
      rewrite insert_insert_eq, !fmap_cons, concat_cons, sapp_assoc. done.
    + cbn [files]. apply lookup_insert_eq.
Qed.

Lemma writerows_unknown (file : string) (good : list Paper) (bad : Paper)
    (rest : list Paper) :
  ∀ w content, forallb known_keys good = true -> known_keys bad = false ->
    files w !! file = Some content ->
    io_for_each (writerow file) (good ++ bad :: rest) w
    = (mkWorld (sent w) (stdout w)
         (<[file := content +:+ csv_text (row_of <$> good)]> (files w)),
       Raise ValueError).
Proof.
  unfold csv_text.
  induction good as [|paper good IH]; intros w content Hgood Hbad Hfile.
  - simpl. unfold mbind, IO_bind, io_bind.
    rewrite (writerow_unknown _ _ _ Hbad), sapp_nil_r, insert_id by done.
    by destruct w.
  - simpl in Hgood. apply andb_true_iff in Hgood as [Hp Hgood].
    simpl io_for_each. unfold mbind, IO_bind, io_bind.
    rewrite (writerow_known _ _ _ _ Hp Hfile).
    rewrite (IH _ (content +:+ csv_row (row_of paper))); [|done|done|].
    + cbn [sent stdout files].
      rewrite insert_insert_eq, !fmap_cons, concat_cons, sapp_assoc. done.
    + cbn [files]. apply lookup_insert_eq.
Qed.

(** X5. The CSV sink on any list of dicts whose keys are field names.
    When the name cannot be opened, the sink raises the error of [open]
    and nothing is written or printed.  When it can, the sink succeeds;
    the file the name resolves to, whatever it held before, now holds the
    header row and one row per dict, and no other file changes.  That
    text reads back as the header and the rows, each of exactly five
    cells, a key the dict lacks giving an empty cell. *)
Theorem save_to_csv_replaces_file `{Library} (data : list Paper) (filename : string)
    (w : World) :
  forallb known_keys data = true ->
  (∀ e, builtin_open filename = Raise e ->
     save_to_csv data filename w = (w, Raise e))
  ∧ (∀ file, builtin_open filename = Ok file ->
       save_to_csv data filename w
       = (mkWorld (sent w) (stdout w ++ ["Results saved to " +:+ filename])
            (<[file := csv_text (FIELDNAMES :: (row_of <$> data))]> (files w)), Ok tt)
       ∧ ∀ other, other ≠ file ->
           files (save_to_csv data filename w).1 !! other = files w !! other)
  ∧ csv_reader (csv_text (FIELDNAMES :: (row_of <$> data)))
    = FIELDNAMES :: (row_of <$> data)
  ∧ Forall (fun row => length row = 5%nat) (row_of <$> data).
Proof.
  intros Hdata. split; [|split; [|split]].
  - intros e Hopen. by apply save_to_csv_open_fails.
  - intros file Hopen.
    assert (Hsave : save_to_csv data filename w
      = (mkWorld (sent w) (stdout w ++ ["Results saved to " +:+ filename])
           (<[file := csv_text (FIELDNAMES :: (row_of <$> data))]> (files w)),
         Ok tt)).
    { unfold save_to_csv, mbind, IO_bind, io_bind.
      unfold open_w at 1. rewrite Hopen. unfold file_write at 1.
      cbn [sent stdout files].
      rewrite (writerows_known file data _ (csv_row FIELDNAMES) Hdata).
      - unfold print, csv_text. cbn [sent stdout files].
        rewrite !insert_insert_eq, fmap_cons, concat_cons. done.
      - cbn [files]. by rewrite !lookup_insert_eq. }
    split; [done|].
    intros other Hne. rewrite Hsave. cbn [fst files]. by apply lookup_insert_ne.
  - apply csv_rows_read.
  - apply Forall_fmap, Forall_true. intros paper. reflexivity.
Qed.

Lemma save_to_csv_replaces_file_witness :
  @save_to_csv (on_disk demo_lib demo_disk) demo_dicts "nodir/out.csv" world1
  = (world1, Raise OSError)
  ∧ @save_to_csv (on_disk demo_lib demo_disk) demo_dicts "./out.csv" world1
    = (mkWorld (sent world1) (stdout world1 ++ ["Results saved to " +:+ "./out.csv"])
         (<["out.csv" := csv_text (FIELDNAMES :: (row_of <$> demo_dicts))]>
            (files world1)), Ok tt)
  ∧ files (@save_to_csv (on_disk demo_lib demo_disk) demo_dicts "./out.csv" world1).1
    !! "notes.txt" = files world1 !! "notes.txt"
  ∧ csv_reader (csv_text (FIELDNAMES :: (row_of <$> demo_dicts)))
    = FIELDNAMES :: (row_of <$> demo_dicts)
  ∧ Forall (fun row => length row = 5%nat) (row_of <$> demo_dicts).
Proof.
  pose proof (@save_to_csv_replaces_file (on_disk demo_lib demo_disk) demo_dicts
                "nodir/out.csv" world1 eq_refl) as (Hfail & _).
  pose proof (@save_to_csv_replaces_file (on_disk demo_lib demo_disk) demo_dicts
                "./out.csv" world1 eq_refl) as (_ & Hopen & Hread & Hcells).
  destruct (Hopen "out.csv" eq_refl) as [Hsave Hother].
  split; [exact (Hfail OSError eq_refl)|]. split; [exact Hsave|].
  split; [by apply Hother|]. by split.
Defined.

(** X6. When the name can be opened, a dict with a key outside the field
    names stops the CSV sink with a [ValueError]: the file is left with
    the header and the rows of the dicts before it, and the success
    message is not printed. *)
Theorem save_to_csv_unknown_key `{Library} (good : list Paper) (bad : Paper)
    (rest : list Paper) (filename file : string) (w : World) :
  builtin_open filename = Ok file ->
  forallb known_keys good = true ->
  (∃ kv, kv ∈ bad ∧ kv.1 ∉ FIELDNAMES) ->
  save_to_csv (good ++ bad :: rest) filename w
  = (mkWorld (sent w) (stdout w)
       (<[file := csv_text (FIELDNAMES :: (row_of <$> good))]> (files w)),
     Raise ValueError).
Proof.
  intros Hopen Hgood (kv & Hin & Hkey).
  assert (Hbad : known_keys bad = false).
  { apply not_true_iff_false. intros Hk. unfold known_keys in Hk.
    rewrite forallb_forall in Hk. apply list_elem_of_In in Hin.
    specialize (Hk kv Hin). by apply bool_decide_eq_true in Hk. }
  unfold save_to_csv, mbind, IO_bind, io_bind.
  unfold open_w at 1. rewrite Hopen. unfold file_write at 1. cbn [sent stdout files].
  rewrite (writerows_unknown file good bad rest _ (csv_row FIELDNAMES) Hgood Hbad).
  - unfold csv_text. cbn [sent stdout files].
    rewrite !insert_insert_eq, fmap_cons, concat_cons. done.
  - cbn [files]. by rewrite !lookup_insert_eq.
Qed.

Lemma save_to_csv_unknown_key_witness :
  @save_to_csv (on_disk demo_lib demo_disk)
    (demo_papers ++ dict_with_unknown_key :: demo_dicts) "./out.csv" world1
  = (mkWorld (sent world1) (stdout world1)
       (<["out.csv" := csv_text (FIELDNAMES :: (row_of <$> demo_papers))]> (files world1)),
     Raise ValueError).
Proof.
  apply (@save_to_csv_unknown_key (on_disk demo_lib demo_disk)
           demo_papers dict_with_unknown_key demo_dicts "./out.csv" "out.csv" world1).
  - reflexivity.
  - reflexivity.
  - exists ("Journal", Some "Nature"). split.
    + repeat constructor.
    + simpl. intros Hin. apply list_elem_of_In in Hin. simpl in Hin.
      repeat destruct Hin as [Hin|Hin]; try discriminate. done.
Defined.

(** ** The entry point, end to end *)

Lemma fetch_when_yields `{Library} query n (w : World) ids root :
  fetch_yields query n w ids root ->
  fetch_papers_from_pubmed query n w
  = (after_requests w [search_request query n; fetch_request ids],
     for_each visit_article (findall_desc "PubmedArticle" root) []).
Proof.
  intros (paper_ids & response & Hs & Ht & Hids & Hget & Hst & Hroot).
  rewrite (fetch_search_yields _ _ _ _ Hs), Ht. simpl.
  unfold mbind, IO_bind, io_bind, http_get, lift, after_requests. simpl.
  rewrite Hids, Hget, Hst, Hroot. by rewrite <- app_assoc.
Qed.

Lemma main_after_fetch `{Library} query file (w w1 : World) papers :
  fetch_papers_from_pubmed query 5 w = (w1, Ok papers) ->
  main query file w
  = match papers with
    | _ :: _ =>
        match file with
        | Some (String c f) => save_to_csv papers (String c f) w1
        | _ => print_results papers w1
        end
    | [] => print "No results found." w1
    end.
Proof.
  intros Hf. unfold main, mbind, IO_bind, io_bind. rewrite Hf.
  destruct papers; [done|]. by destruct file as [[|]|].
Qed.

Lemma paper_record_known_keys (paper : Paper) :
  paper_record paper -> known_keys paper = true ∧ paper.*1 = FIELDNAMES.
Proof. by intros (pid & t & a & f & e & ->). Qed.

(** X7. Whatever the pipeline returns passes the key check of the CSV
    writer: each of its records has exactly the five field names as
    keys, in their order, and is turned into a row of five cells without
    a [ValueError]. *)
Theorem pipeline_result_has_field_names `{Library} (query : string) (max_results : Z)
    (w w1 : World) (papers : list Paper) :
  fetch_papers_from_pubmed query max_results w = (w1, Ok papers) ->
  Forall (fun paper => paper.*1 = FIELDNAMES
                       ∧ ∃ row, dict_to_list FIELDNAMES paper = Ok row
                                ∧ length row = 5%nat)
    papers.
Proof.
  intros Hrec%pipeline_returns_records.
  eapply Forall_impl; [exact Hrec|]. intros paper Hp.
  split; [by apply paper_record_known_keys|].
  exists (row_of paper). by rewrite (dict_to_list_record _ Hp).
Qed.

Lemma pipeline_result_has_field_names_witness :
  Forall (fun paper : Paper =>
            paper.*1 = FIELDNAMES
            ∧ ∃ row, dict_to_list FIELDNAMES paper = Ok row ∧ length row = 5%nat)
    (@paper_of demo_lib <$> [article_111; article_222]).
Proof.
  apply (@pipeline_result_has_field_names demo_lib "cancer research" 5 world0
           (after_requests world0
              [search_request "cancer research" 5; fetch_request ["111"; "222"]])).
  vm_compute. reflexivity.
Defined.




Lemma demo_fetch_yields_on_disk :
  @fetch_yields (on_disk demo_lib demo_disk) "cancer research" 5 world1
    ["111"; "222"] demo_root.
Proof.
  exists (JArr [JStr "111"; JStr "222"]),
    (mkResponse 200 None "<PubmedArticleSet>...</PubmedArticleSet>").
  split.
  - exists (mkResponse 200 (Some (ids_body ["111"; "222"])) EmptyString),
      (ids_body ["111"; "222"]),
      (JObj [("idlist", JArr [JStr "111"; JStr "222"])]).
    repeat split; reflexivity.
  - repeat split; reflexivity.
Defined.

(** X9. From the command line to the file.  When both requests go
    through, the XML parses and every article is ready, a run with a file
    name sends the two requests and then opens the file.  If the name
    cannot be opened, the run ends with the error of [open], nothing
    printed and nothing written.  If it can, the run prints the success
    message alone and leaves in the file a header row and one row per
    article in document order: identifier, title, names joined by a comma
    and a space, affiliations joined likewise, e-mail address, with [N/A]
    for an empty list and a missing address. *)
Theorem main_writes_one_row_per_article `{Library} (query : string) (c : ascii)
    (name : string) (w : World) (ids : list string) (root : Element) :
  fetch_yields query 5 w ids root ->
  forallb article_ready (findall_desc "PubmedArticle" root) = true ->
  findall_desc "PubmedArticle" root ≠ [] ->
  (∀ e, builtin_open (String c name) = Raise e ->
     main query (Some (String c name)) w
     = (after_requests w [search_request query 5; fetch_request ids], Raise e))
  ∧ (∀ file, builtin_open (String c name) = Ok file ->
       ∃ csv,
         main query (Some (String c name)) w
         = (mkWorld (sent w ++ [search_request query 5; fetch_request ids])
              (stdout w ++ ["Results saved to " +:+ String c name])
              (<[file := csv]> (files w)), Ok tt)
         ∧ csv_reader csv
           = FIELDNAMES ::
             ((fun '(paper_id, title, authors, company_affiliations, email) =>
                 [csv_cell paper_id; csv_cell title;
                  match authors with
                  | [] => "N/A"
                  | _ => join ", " authors
                  end;
                  match company_affiliations with
                  | [] => "N/A"
                  | _ => join ", " company_affiliations
                  end;
                  match email with
                  | Some (String c e) => String c e
                  | _ => "N/A"
                  end])
              <$> ((fun article =>
                      (find_desc "PMID" article ≫= text,
                       title_of article,
                       author_name <$> company_authors article,
                       omap affiliation_of (company_authors article),
                       re_search EMAIL_RE (ET_tostring article)))
                   <$> findall_desc "PubmedArticle" root))).
Proof.
  intros Hy Hready Hne. pose proof (fetch_when_yields _ _ _ _ _ Hy) as Hf.
  rewrite (visit_articles_ready _ _ Hready) in Hf. simpl in Hf.
  destruct (findall_desc "PubmedArticle" root) as [|a l] eqn:Hl; [done|].
  assert (Hrec : Forall paper_record (paper_of <$> a :: l)).
  { apply Forall_fmap, Forall_true. intros x.
    unfold paper_of. by eexists _, _, _, _, _. }
  split.
  - intros e Hopen. rewrite (main_after_fetch _ _ _ _ _ Hf), fmap_cons.
    by apply save_to_csv_open_fails.
  - intros file Hopen. rewrite (main_after_fetch _ _ _ _ _ Hf).
    eexists. split.
    + rewrite fmap_cons, <- fmap_cons.
      rewrite (save_to_csv_ok _ _ _ _ Hopen Hrec). reflexivity.
    + rewrite csv_rows_read. f_equal. rewrite <- !list_fmap_compose.
      apply list_fmap_ext. intros i x _. simpl.
      unfold paper_of. rewrite row_of_paper. unfold join_or_na, or_na.
      by destruct (re_search EMAIL_RE (ET_tostring x)) as [[|]|].
Qed.

Lemma main_writes_one_row_per_article_witness :
  @main (on_disk demo_lib demo_disk) "cancer research" (Some "nodir/out.csv") world1
  = (after_requests world1
       [search_request "cancer research" 5; fetch_request ["111"; "222"]],
     Raise OSError)
  ∧ ∃ csv,
      @main (on_disk demo_lib demo_disk) "cancer research" (Some "./out.csv") world1
      = (mkWorld (sent world1 ++ [search_request "cancer research" 5;
                                  fetch_request ["111"; "222"]])
           (stdout world1 ++ ["Results saved to " +:+ "./out.csv"])
           (<["out.csv" := csv]> (files world1)), Ok tt)
      ∧ csv_reader csv
        = [FIELDNAMES;
           ["111"; "On quotes, commas"; "Jane Doe";
            "Acme Pharma Inc., jane.doe@acme.com"; "jane.doe@acme.com"];
           ["222"; "N/A"; "N/A"; "N/A"; "N/A"]].
Proof.
  split.
  - apply (proj1 (@main_writes_one_row_per_article (on_disk demo_lib demo_disk)
                    "cancer research" "n" "odir/out.csv" world1 ["111"; "222"]
                    demo_root demo_fetch_yields_on_disk eq_refl ltac:(discriminate))).
    reflexivity.
  - destruct (proj2 (@main_writes_one_row_per_article (on_disk demo_lib demo_disk)
                       "cancer research" "." "/out.csv" world1 ["111"; "222"]
                       demo_root demo_fetch_yields_on_disk eq_refl ltac:(discriminate))
                "out.csv" eq_refl) as (csv & Hmain & Hread).
    exists csv. split; [exact Hmain|]. rewrite Hread. vm_compute. reflexivity.
Defined.



(** X11. Identifiers without articles.  When the search yields
    identifiers but the fetched XML holds no article element, [main] ends
    normally after both requests: it prints its own no-results message (not
    the pipeline's no-papers message) and writes no file, with or without
    a file name. *)
Theorem main_no_articles `{Library} (query : string) (file : option string)
    (w : World) (ids : list string) (root : Element) :
  fetch_yields query 5 w ids root ->
  findall_desc "PubmedArticle" root = [] ->
  main query file w
  = (mkWorld (sent w ++ [search_request query 5; fetch_request ids])
       (stdout w ++ ["No results found."]) (files w), Ok tt).
Proof.
  intros Hy Hnone. pose proof (fetch_when_yields _ _ _ _ _ Hy) as Hf.
  rewrite Hnone in Hf. simpl in Hf. by rewrite (main_after_fetch _ _ _ _ _ Hf).
Qed.

Lemma main_no_articles_witness :
  @main lib_no_articles "cancer research" (Some "out.csv") world0
  = (mkWorld (sent world0 ++ [search_request "cancer research" 5; fetch_request ["111"]])
       (stdout world0 ++ ["No results found."]) (files world0), Ok tt).
Proof.
  apply (@main_no_articles lib_no_articles "cancer research" (Some "out.csv")
           world0 ["111"] (node "PubmedArticleSet" [])).
  - exists (JArr [JStr "111"]),
      (mkResponse 200 None "<PubmedArticleSet>...</PubmedArticleSet>").
    split.
    + exists (mkResponse 200 (Some (ids_body ["111"])) EmptyString),
        (ids_body ["111"]), (JObj [("idlist", JArr [JStr "111"])]).
      repeat split; reflexivity.
    + repeat split; reflexivity.
  - reflexivity.
Defined.

(** ** The shape of the search answer *)

(** X12. A JSON object without the expected keys is not an error: when
    the answer to the search has no [esearchresult] entry, or that entry
    is an object without [idlist], the pipeline behaves as for an empty
    identifier list. *)
Theorem search_answer_without_keys `{Library} (query : string) (max_results : Z)
    (w : World) (response : Response) (kvs : list (string * json)) :
  requests_get (sent w) (search_request query max_results) = Ok response ->
  raise_for_status response = Ok tt ->
  body_json response = Some (JObj kvs) ->
  assoc "esearchresult" kvs = None
  ∨ (∃ inner, assoc "esearchresult" kvs = Some (JObj inner)
              ∧ assoc "idlist" inner = None) ->
  fetch_papers_from_pubmed query max_results w
  = (mkWorld (sent w ++ [search_request query max_results])
       (stdout w ++ ["No papers found for the query."]) (files w), Ok []).
Proof.
  intros Hget Hst Hjson Hkeys.
  assert (Hs : search_yields query max_results w (JArr [])).
  { destruct Hkeys as [Hnone | (inner & Hsome & Hnone)].
    - exists response, (JObj kvs), (JObj []). repeat split; try done.
      simpl. by rewrite Hnone.
    - exists response, (JObj kvs), (JObj inner). repeat split; try done.
      + simpl. by rewrite Hsome.
      + simpl. by rewrite Hnone. }
  by rewrite (fetch_search_yields _ _ _ _ Hs).
Qed.

Lemma search_answer_without_keys_witness :
  @fetch_papers_from_pubmed lib_no_keys "cancer research" 5 world0
  = (mkWorld (sent world0 ++ [search_request "cancer research" 5])
       (stdout world0 ++ ["No papers found for the query."]) (files world0), Ok []).
Proof.
  apply (@search_answer_without_keys lib_no_keys "cancer research" 5 world0
           (mkResponse 200 (Some (JObj [("header", JObj [])])) EmptyString)
           [("header", JObj [])]); try reflexivity.
  by left.
Defined.

(** X13. JSON of another shape is an error: when the answer to the
    search is valid JSON but no object, or its [esearchresult] entry is no
    object, the pipeline raises an [AttributeError] after the search
    request alone. *)
Theorem search_answer_of_wrong_shape `{Library} (query : string) (max_results : Z)
    (w : World) (response : Response) (search_data : json) :
  requests_get (sent w) (search_request query max_results) = Ok response ->
  raise_for_status response = Ok tt ->
  body_json response = Some search_data ->
  (∀ kvs, search_data ≠ JObj kvs)
  ∨ (∃ kvs inner, search_data = JObj kvs
                  ∧ assoc "esearchresult" kvs = Some inner
                  ∧ ∀ kvs', inner ≠ JObj kvs') ->
  fetch_papers_from_pubmed query max_results w
  = (after_requests w [search_request query max_results], Raise AttributeError).
Proof.
  intros Hget Hst Hjson Hshape.
  unfold fetch_papers_from_pubmed, mbind, IO_bind, io_bind, http_get, lift,
    response_json. simpl. rewrite Hget, Hst, Hjson.
  destruct Hshape as [Hno | (kvs & inner & -> & Hsome & Hno)].
  - destruct search_data; try done. by destruct (Hno kvs).
  - simpl. rewrite Hsome. simpl. destruct inner; try done. by destruct (Hno kvs0).
Qed.

Lemma search_answer_of_wrong_shape_witness :
  @fetch_papers_from_pubmed lib_json_list "cancer research" 5 world0
  = (after_requests world0 [search_request "cancer research" 5], Raise AttributeError).
Proof.
  apply (@search_answer_of_wrong_shape lib_json_list "cancer research" 5 world0
           (mkResponse 200 (Some (JArr [])) EmptyString) (JArr [])); try reflexivity.
  left. intros kvs. discriminate.
Defined.

Lemma str_items_strings_from (ids : list string) :
  ∀ acc, for_each (fun acc x => s ← expect_str x; Ok (acc ++ [s])) (JStr <$> ids) acc
         = Ok (acc ++ ids).
Proof.
  induction ids as [|s ids IH]; intros acc; simpl.
  - by rewrite app_nil_r.
  - by rewrite IH, <- app_assoc.
Qed.

Lemma str_items_non_string_from (xs : list json) :
  ∀ acc, Exists (fun x => ∀ s, x ≠ JStr s) xs ->
    for_each (fun acc x => s ← expect_str x; Ok (acc ++ [s])) xs acc = Raise TypeError.
Proof.
  induction xs as [|x xs IH]; intros acc Hex; [by apply Exists_nil in Hex|].
  simpl. destruct x as [| | |s| |]; try done.
  simpl. apply IH. apply Exists_cons in Hex as [Hx|Hxs]; [|done].
  by destruct (Hx s).
Qed.

(** X14. The identifiers between the two stages.  A non-empty list of
    string identifiers is asked for as it came, comma-joined in the
    server's order, in the one fetch request, whatever happens after;
    a list holding anything but strings raises a [TypeError] before any
    fetch request is sent. *)
Theorem identifiers_passed_to_fetch `{Library} (query : string) (max_results : Z)
    (w : World) :
  (∀ ids, search_yields query max_results w (JArr (JStr <$> ids)) -> ids ≠ [] ->
     sent (fetch_papers_from_pubmed query max_results w).1
     = sent w ++ [search_request query max_results;
                  mkRequest (PUBMED_API_BASE +:+ "efetch.fcgi")
                    [("db", PStr "pubmed"); ("id", PStr (join "," ids));
                     ("retmode", PStr "xml")]])
  ∧ (∀ xs, search_yields query max_results w (JArr xs) ->
       Exists (fun x => ∀ s, x ≠ JStr s) xs ->
       fetch_papers_from_pubmed query max_results w
       = (after_requests w [search_request query max_results], Raise TypeError)).
Proof.
  split.
  - intros ids Hs Hne. rewrite (fetch_search_yields _ _ _ _ Hs).
    assert (Ht : truthy (JArr (JStr <$> ids)) = true) by by destruct ids.
    rewrite Ht. simpl negb. cbv iota.
    unfold mbind, IO_bind, io_bind, http_get, lift, after_requests, str_items.
    rewrite (str_items_strings_from ids []). simpl.
    repeat (match goal with
            | |- context [match ?x with _ => _ end] => destruct x eqn:?
            end); simpl; by rewrite <- app_assoc.
  - intros xs Hs Hex. rewrite (fetch_search_yields _ _ _ _ Hs).
    assert (Ht : truthy (JArr xs) = true).
    { destruct xs; [by apply Exists_nil in Hex | done]. }
    rewrite Ht. simpl negb. cbv iota.
    unfold mbind, IO_bind, io_bind, lift, str_items.
    by rewrite (str_items_non_string_from xs [] Hex).
Qed.

Lemma identifiers_passed_to_fetch_witness :
  sent (@fetch_papers_from_pubmed demo_lib "cancer research" 5 world0).1
  = sent world0 ++ [search_request "cancer research" 5;
                    mkRequest (PUBMED_API_BASE +:+ "efetch.fcgi")
                      [("db", PStr "pubmed"); ("id", PStr (join "," ["111"; "222"]));
                       ("retmode", PStr "xml")]]
  ∧ @fetch_papers_from_pubmed lib_numeric_ids "cancer research" 5 world0
    = (after_requests world0 [search_request "cancer research" 5], Raise TypeError).
Proof.
  split.
  - apply (proj1 (@identifiers_passed_to_fetch demo_lib "cancer research" 5 world0)
             ["111"; "222"]); [|done].
    exists (mkResponse 200 (Some (ids_body ["111"; "222"])) EmptyString),
      (ids_body ["111"; "222"]),
      (JObj [("idlist", JArr [JStr "111"; JStr "222"])]).
    repeat split; reflexivity.
  - apply (proj2 (@identifiers_passed_to_fetch lib_numeric_ids "cancer research" 5
                    world0) [JStr "111"; JNum 222]).
    + eexists _, _, _. repeat split; reflexivity.
    + apply Exists_cons_tl, Exists_cons_hd. intros s. discriminate.
Defined.

(** ** What the two lists hold *)

(** X15. Nothing is listed without a company.  Every affiliation the
    extractor returns contains a company keyword and is the affiliation
    text of an author element of the article, and every name it returns
    is the display name of an author element of the article whose
    affiliation text contains a company keyword. *)
Theorem listed_entries_are_company `{Library} (article : Element)
    (authors company_affiliations : list string) (email : option string) :
  extract_authors_and_affiliations article = Ok (authors, company_affiliations, email) ->
  Forall (fun affiliation =>
            (∃ keyword, keyword ∈ COMPANY_KEYWORDS ∧ substring_of keyword affiliation)
            ∧ ∃ author, author ∈ findall_desc "Author" article
                        ∧ affiliation_of author = Some affiliation)
    company_affiliations
  ∧ Forall (fun name =>
              ∃ author affiliation keyword,
                author ∈ findall_desc "Author" article
                ∧ name = author_name author
                ∧ affiliation_of author = Some affiliation
                ∧ keyword ∈ COMPANY_KEYWORDS
                ∧ substring_of keyword affiliation)
      authors.
Proof.
  intros [Hloop _]%extract_ok.
  apply visit_authors_ok in Hloop as [Ha Hf]. simpl in Ha, Hf.
  assert (Hcompany : ∀ a, a ∈ List.filter names_company (findall_desc "Author" article) ->
            a ∈ findall_desc "Author" article
            ∧ ∃ aff kw, affiliation_of a = Some aff ∧ kw ∈ COMPANY_KEYWORDS
                        ∧ substring_of kw aff).
  { intros a [Hin Hn]%list_elem_of_In%filter_In. split; [by apply list_elem_of_In|].
    unfold names_company in Hn. destruct (affiliation_of a) as [aff|]; [|done].
    apply is_company_spec in Hn as (kw & Hkw & Hsub). by exists aff, kw. }
  split.
  - apply Forall_forall. intros aff Hin.
    assert (Hin' : Some aff ∈ Some <$> company_affiliations).
    { apply list_elem_of_fmap. by exists aff. }
    rewrite Hf in Hin'. apply list_elem_of_fmap in Hin' as (a & Haff & Hain).
    destruct (Hcompany a Hain) as (Hauthor & aff' & kw & Haff' & Hkw & Hsub).
    rewrite Haff' in Haff. injection Haff as ->. split; [by exists kw|].
    by exists a.
  - subst authors. apply Forall_forall. intros name Hin.
    apply list_elem_of_fmap in Hin as (a & -> & Hain).
    destruct (Hcompany a Hain) as (Hauthor & aff & kw & Haff & Hkw & Hsub).
    by exists a, aff, kw.
Qed.

Lemma listed_entries_are_company_witness :
  Forall (fun affiliation =>
            (∃ keyword, keyword ∈ COMPANY_KEYWORDS ∧ substring_of keyword affiliation)
            ∧ ∃ author, author ∈ findall_desc "Author" article_111
                        ∧ affiliation_of author = Some affiliation)
    ["Acme Pharma Inc., jane.doe@acme.com"]
  ∧ Forall (fun name =>
              ∃ author affiliation keyword,
                author ∈ findall_desc "Author" article_111
                ∧ name = author_name author
                ∧ affiliation_of author = Some affiliation
                ∧ keyword ∈ COMPANY_KEYWORDS
                ∧ substring_of keyword affiliation)
      ["Jane Doe"].
Proof.
  apply (@listed_entries_are_company demo_lib article_111
           ["Jane Doe"] ["Acme Pharma Inc., jane.doe@acme.com"]
           (Some "jane.doe@acme.com")).
  vm_compute. reflexivity.
Defined.

(** ** Failures of the libraries *)

(** X16. What the libraries raise passes through unchanged and stops the
    pipeline where it stands: a failure of the search request or a search
    body that is not JSON after the search request alone, a failure of
    the fetch request or XML that does not parse after both requests. *)
Theorem library_failures_pass_through `{Library} (query : string) (max_results : Z)
    (w : World) :
  (∀ e, requests_get (sent w) (search_request query max_results) = Raise e ->
     fetch_papers_from_pubmed query max_results w
     = (after_requests w [search_request query max_results], Raise e))
  ∧ (∀ response,
       requests_get (sent w) (search_request query max_results) = Ok response ->
       raise_for_status response = Ok tt ->
       body_json response = None ->
       fetch_papers_from_pubmed query max_results w
       = (after_requests w [search_request query max_results], Raise JSONDecodeError))
  ∧ (∀ paper_ids ids e,
       search_yields query max_results w paper_ids ->
       truthy paper_ids = true ->
       str_items paper_ids = Ok ids ->
       requests_get (sent w ++ [search_request query max_results]) (fetch_request ids)
       = Raise e ->
       fetch_papers_from_pubmed query max_results w
       = (after_requests w [search_request query max_results; fetch_request ids],
          Raise e))
  ∧ (∀ paper_ids ids response e,
       search_yields query max_results w paper_ids ->
       truthy paper_ids = true ->
       str_items paper_ids = Ok ids ->
       requests_get (sent w ++ [search_request query max_results]) (fetch_request ids)
       = Ok response ->
       raise_for_status response = Ok tt ->
       ET_fromstring (body_text response) = Raise e ->
       fetch_papers_from_pubmed query max_results w
       = (after_requests w [search_request query max_results; fetch_request ids],
          Raise e)).
Proof.
  split; [|split; [|split]].
  - intros e Hget.
    unfold fetch_papers_from_pubmed, mbind, IO_bind, io_bind, http_get. simpl.
    by rewrite Hget.
  - intros response Hget Hst Hjson.
    unfold fetch_papers_from_pubmed, mbind, IO_bind, io_bind, http_get, lift,
      response_json. simpl. by rewrite Hget, Hst, Hjson.
  - intros paper_ids ids e Hs Ht Hids Hget.
    rewrite (fetch_search_yields _ _ _ _ Hs), Ht. simpl.
    unfold mbind, IO_bind, io_bind, http_get, lift, after_requests. simpl.
    rewrite Hids, Hget. by rewrite <- app_assoc.
  - intros paper_ids ids response e Hs Ht Hids Hget Hst Hroot.
    rewrite (fetch_search_yields _ _ _ _ Hs), Ht. simpl.
    unfold mbind, IO_bind, io_bind, http_get, lift, after_requests. simpl.
    rewrite Hids, Hget, Hst, Hroot. by rewrite <- app_assoc.
Qed.

Lemma library_failures_pass_through_witness :
  @fetch_papers_from_pubmed lib_down "cancer research" 5 world0
  = (after_requests world0 [search_request "cancer research" 5], Raise ConnectionError)
  ∧ @fetch_papers_from_pubmed lib_not_json "cancer research" 5 world0
    = (after_requests world0 [search_request "cancer research" 5], Raise JSONDecodeError)
  ∧ @fetch_papers_from_pubmed lib_fetch_down "cancer research" 5 world0
    = (after_requests world0
         [search_request "cancer research" 5; fetch_request ["111"]],
       Raise ConnectionError)
  ∧ @fetch_papers_from_pubmed lib_bad_xml "cancer research" 5 world0
    = (after_requests world0
         [search_request "cancer research" 5; fetch_request ["111"]],
       Raise ParseError).
Proof.
  assert (Hs : ∀ answers root,
    @search_yields (scripted (ok_search ["111"] :: answers) root)
      "cancer research" 5 world0 (JArr [JStr "111"])).
  { intros answers root. eexists _, _, _. repeat split; reflexivity. }
  split; [|split; [|split]].
  - apply (proj1 (@library_failures_pass_through lib_down "cancer research" 5 world0)).
    reflexivity.
  - apply (proj1 (proj2 (@library_failures_pass_through lib_not_json
                           "cancer research" 5 world0))
             (mkResponse 200 None "<html>busy</html>")); reflexivity.
  - apply (proj1 (proj2 (proj2 (@library_failures_pass_through lib_fetch_down
                                  "cancer research" 5 world0)))
             (JArr [JStr "111"]) ["111"]); try reflexivity. apply Hs.
  - apply (proj2 (proj2 (proj2 (@library_failures_pass_through lib_bad_xml
                                  "cancer research" 5 world0)))
             (JArr [JStr "111"]) ["111"]
             (mkResponse 200 None "<PubmedArticleSet>...</PubmedArticleSet>"));
      try reflexivity. apply Hs.
Defined.

(** ** The title and the e-mail cell *)

Lemma title_field_of_paper paper_id title authors affs email :
  assoc "Title" (make_paper paper_id title authors affs email) = Some title.
Proof. reflexivity. Qed.

(** X17. The title of a record.  It is [N/A] when the article has no
    title element and the text of the first title element otherwise; a
    title element without text (one that starts with markup, say) gives
    the value [None], which the console shows as the word None and the
    CSV file as an empty cell. *)
Theorem title_of_record `{Library} (papers papers' : list Paper) (article : Element) :
  visit_article papers article = Ok papers' ->
  ∃ paper, papers' = papers ++ [paper]
    ∧ (find_desc "ArticleTitle" article = None ->
       assoc "Title" paper = Some (Some "N/A"))
    ∧ (∀ title_elem, find_desc "ArticleTitle" article = Some title_elem ->
         assoc "Title" paper = Some (text title_elem)
         ∧ (text title_elem = None ->
            (field_line <$> paper) !! 1%nat = Some "Title: None"
            ∧ row_of paper !! 1%nat = Some EmptyString)).
Proof.
  intros (pmid & authors & affs & _ & _ & ->)%visit_article_ok.
  eexists. split; [done|]. rewrite title_field_of_paper. split.
  - by intros ->.
  - intros title_elem ->. split; [done|]. by intros ->.
Qed.

Lemma title_of_record_witness :
  ∃ paper, [@paper_of demo_lib article_markup_title] = [] ++ [paper]
    ∧ (find_desc "ArticleTitle" article_markup_title = None ->
       assoc "Title" paper = Some (Some "N/A"))
    ∧ (∀ title_elem, find_desc "ArticleTitle" article_markup_title = Some title_elem ->
         assoc "Title" paper = Some (text title_elem)
         ∧ (text title_elem = None ->
            (field_line <$> paper) !! 1%nat = Some "Title: None"
            ∧ row_of paper !! 1%nat = Some EmptyString)).
Proof.
  apply (@title_of_record demo_lib [] _ article_markup_title).
  vm_compute. reflexivity.
Defined.

Lemma cls_domain_local (c : ascii) : cls_domain c = true -> email_char c = true.
Proof. destruct c as [[] [] [] [] [] [] [] []]; by vm_compute. Qed.

Lemma cls_alpha_local (c : ascii) : cls_alpha c = true -> email_char c = true.
Proof. destruct c as [[] [] [] [] [] [] [] []]; by vm_compute. Qed.

Lemma cls_local_email (c : ascii) : cls_local c = true -> email_char c = true.
Proof. unfold email_char. by intros ->. Qed.

Lemma email_char_not_special (c : ascii) :
  email_char c = true -> csv_special c = false.
Proof. destruct c as [[] [] [] [] [] [] [] []]; by vm_compute. Qed.

Lemma str_forall_impl (f g : ascii -> bool) (s : string) :
  (∀ c, f c = true -> g c = true) -> str_forall f s = true -> str_forall g s = true.
Proof.
  intros Hfg. induction s as [|c s IH]; [done|]. simpl.
  intros [Hc Hs]%andb_true_iff. by rewrite (Hfg c Hc), IH.
Qed.

Lemma str_forall_not_exists (f g : ascii -> bool) (s : string) :
  (∀ c, f c = true -> g c = false) -> str_forall f s = true -> str_exists g s = false.
Proof.
  intros Hfg. induction s as [|c s IH]; [done|]. simpl.
  intros [Hc Hs]%andb_true_iff. by rewrite (Hfg c Hc), IH.
Qed.

Lemma email_match_chars (m : string) :
  Matches EMAIL_RE m ->
  str_forall email_char m = true ∧ substring_of "@" m.
Proof.
  intros Hm.
  inversion Hm as [| |cls1 min1 p1 u v1 Hu _ Hv1]; subst.
  inversion Hv1 as [|c2 p2 v2 Hv2|]; subst.
  inversion Hv2 as [| |cls3 min3 p3 d v3 Hd _ Hv3]; subst.
  inversion Hv3 as [|c4 p4 v4 Hv4|]; subst.
  inversion Hv4 as [| |cls5 min5 p5 a v5 Ha _ Hv5]; subst.
  inversion Hv5; subst. split.
  - rewrite str_forall_app. simpl. rewrite str_forall_app. simpl.
    rewrite str_forall_app. simpl.
    rewrite (str_forall_impl _ _ _ cls_local_email Hu),
      (str_forall_impl _ _ _ cls_domain_local Hd),
      (str_forall_impl _ _ _ cls_alpha_local Ha). done.
  - by exists u, (d +:+ String "." (a +:+ EmptyString)).
Qed.

(** X18. The e-mail cell of a record is never empty: it is [N/A] or a
    piece of the serialized article that holds an [@] and otherwise only
    letters, digits and the characters [._%+-]; either way it holds no
    comma, quote or line break, so the CSV writer writes it as it is. *)
Theorem email_cell_is_plain `{Library} (papers papers' : list Paper) (article : Element) :
  visit_article papers article = Ok papers' ->
  ∃ paper cell, papers' = papers ++ [paper]
    ∧ assoc "Corresponding Author Email" paper = Some (Some cell)
    ∧ cell ≠ EmptyString
    ∧ (cell = "N/A"
       ∨ (substring_of cell (ET_tostring article) ∧ substring_of "@" cell
          ∧ str_forall email_char cell = true))
    ∧ csv_field cell = cell.
Proof.
  intros (pmid & authors & affs & _ & _ & ->)%visit_article_ok.
  eexists _, _. split; [done|]. split; [apply email_field_of_paper|].
  destruct (re_search EMAIL_RE (ET_tostring article)) as [m|] eqn:Hs.
  - apply re_search_leftmost in Hs as (pre & post & Heq & Hm & _).
    rewrite (or_na_match m Hm). destruct (email_match_chars m Hm) as [Hchars Hat].
    split; [by apply email_match_nonempty|]. split.
    + right. split; [by exists pre, post | done].
    + unfold csv_field.
      by rewrite (str_forall_not_exists _ _ _ email_char_not_special Hchars).
  - simpl. split; [done|]. split; [by left | done].
Qed.

Lemma email_cell_is_plain_witness :
  ∃ paper cell, [@paper_of demo_lib article_mail] = [] ++ [paper]
    ∧ assoc "Corresponding Author Email" paper = Some (Some cell)
    ∧ cell ≠ EmptyString
    ∧ (cell = "N/A"
       ∨ (substring_of cell (@ET_tostring demo_lib article_mail) ∧ substring_of "@" cell
          ∧ str_forall email_char cell = true))
    ∧ csv_field cell = cell.
Proof.
  apply (@email_cell_is_plain demo_lib [] _ article_mail).
  vm_compute. reflexivity.
Defined.

(** ** The classifier and the surrounding text *)

Lemma substring_of_app (kw s pre post : string) :
  substring_of kw s -> substring_of kw (pre +:+ s +:+ post).
Proof.
  intros (a & b & ->). exists (pre +:+ a), (b +:+ post).
  by rewrite !sapp_assoc.
Qed.

(** X19. Text around an affiliation never takes the company status away:
    a string classified as a company stays one with anything before and
    after it, academic words included. *)
Theorem company_status_survives_context (affiliation before after : string) :
  is_company affiliation = true ->
  is_company (before +:+ affiliation +:+ after) = true.
Proof.
  rewrite !is_company_spec. intros (kw & Hin & Hsub).
  exists kw. split; [done|]. by apply substring_of_app.
Qed.

Lemma company_status_survives_context_witness :
  is_company ("Dept. of Chemistry, State University; " +:+ "Acme Pharma" +:+ ", Basel")
  = true.
Proof.
  apply (company_status_survives_context "Acme Pharma"). vm_compute. reflexivity.
Defined.
